(** * Agentic-Flow: the flow execution engine of [src/App.tsx]

    A shallow embedding of [handleProcessFlow] (src/App.tsx, lines 279-362)
    together with the data types of [src/types.ts].

    Modelling decisions.
    - The React state of [App] that a run reads or writes is the record
      [AppState]; a state setter [setX(v)] or [setX(prev => f prev)] is a
      function on that record.  The handler reads [nodes], [edges] and
      [initialQuestion] from its closure: these are the values of the state
      at the moment the handler is called, and they are passed around
      unchanged as [ns], [es] and [q].
    - [processAgentTask] (src/services/geminiService.ts) is the external,
      asynchronous language-model call.  It is a parameter of the
      development: a function on an abstract world [W] that either resolves
      with a text and optional grounding metadata or rejects with an error
      message.  [await] is sequencing.
    - [new Date()] in [addLog] reads the wall clock.  The clock is a
      parameter [clock : nat -> Z]: [clock k] is the time returned by the
      k-th reading made by the handler.
    - JavaScript strings are modelled as [string] (lists of 8-bit
      characters); [toLowerCase] and [trim] are given on the ASCII range.
    - The canvas coordinates [x], [y] are numbers the run never inspects;
      they are carried as [Z].

    The development also embeds the other handlers of [App] (the graph
    editor, record [Editor]), the service itself (module [geminiService],
    over an abstract client) and the filter of the log panel
    ([displayedLogs]); their properties follow those of the engine. *)

From Stdlib Require Import ZArith Ascii String List Bool Lia.
From stdpp Require Import base option list gmap strings pretty.

Local Open Scope Z_scope.
Local Open Scope nat_scope.

#[local] Set Warnings "-clear-no-such-hyp".

(** ** src/types.ts *)

Inductive NodeType := START | AGENT | END | CONDITIONAL_AGENT.

#[global] Instance NodeType_eq_dec : EqDecision NodeType.
Proof. solve_decision. Defined.

(** The string value of the enum member, as a template literal prints it. *)
Definition typeName (t : NodeType) : string :=
  match t with
  | START => "START"
  | AGENT => "AGENT"
  | END => "END"
  | CONDITIONAL_AGENT => "CONDITIONAL_AGENT"
  end.

Record GroundingChunkWeb := { uri : string; title : string }.

Record GroundingChunk := { web : option GroundingChunkWeb }.

Record AgentNode := {
  n_id : string;
  n_type : NodeType;
  n_description : string;
  n_x : Z;
  n_y : Z;
  n_output : option string;
  n_lastProcessedInput : option string;
  n_enableInternetSearch : option bool;
  n_groundingMetadata : option (list GroundingChunk)
}.

Record AgentEdge := {
  e_id : string;
  e_sourceId : string;
  e_targetId : string;
  e_conditionKeyword : option string
}.

Inductive LogStatus := info | success | error | processing.

#[global] Instance LogStatus_eq_dec : EqDecision LogStatus.
Proof. solve_decision. Defined.

Record ProcessLogEntry := {
  timestamp : Z;
  message : string;
  nodeId : option string;
  status : LogStatus;
  groundingMetadata : option (list GroundingChunk)
}.

(** ** JavaScript string operations used by the handler *)

Definition isUpper (c : ascii) : bool :=
  (65 <=? nat_of_ascii c) && (nat_of_ascii c <=? 90).

Definition lowerChar (c : ascii) : ascii :=
  if isUpper c then ascii_of_nat (nat_of_ascii c + 32) else c.

(** [String.prototype.toLowerCase]. *)
Fixpoint toLowerCase (s : string) : string :=
  match s with
  | EmptyString => EmptyString
  | String c s' => String (lowerChar c) (toLowerCase s')
  end.

(** [s.includes(sub)]: [sub] occurs in [s] at some position. *)
Fixpoint includes (s sub : string) : bool :=
  String.prefix sub s ||
  match s with
  | EmptyString => false
  | String _ s' => includes s' sub
  end.

(** White space removed by [trim]: tab, line feed, vertical tab, form feed,
    carriage return and space. *)
Definition isWhiteSpace (c : ascii) : bool :=
  let n := nat_of_ascii c in
  ((9 <=? n) && (n <=? 13)) || (n =? 32).

Fixpoint trimStart (s : string) : string :=
  match s with
  | EmptyString => EmptyString
  | String c s' => if isWhiteSpace c then trimStart s' else s
  end.

Fixpoint trimEnd (s : string) : string :=
  match s with
  | EmptyString => EmptyString
  | String c s' =>
      match trimEnd s' with
      | EmptyString => if isWhiteSpace c then EmptyString else String c EmptyString
      | t => String c t
      end
  end.

(** [String.prototype.trim]. *)
Definition trim (s : string) : string := trimEnd (trimStart s).

(** Truthiness of a string: every string but the empty one. *)
Definition truthy (s : string) : bool :=
  match s with
  | EmptyString => false
  | String _ _ => true
  end.

(** [s.substring(0, n)]. *)
Definition substring0 (n : nat) (s : string) : string := String.substring 0 n s.

(** The double quote character of the template literals. *)
Definition dq : string := String (ascii_of_nat 34) EmptyString.

(** ** The React state of [App] that a run touches *)

Record AppState := {
  nodes : list AgentNode;
  edges : list AgentEdge;
  initialQuestion : string;
  processingLog : list ProcessLogEntry;
  finalOutput : option string;
  isProcessing : bool;
  processingError : option string;
  currentProcessingNodeId : option string;
  nodeErrors : gmap string bool
}.

Definition setNodes (f : list AgentNode -> list AgentNode) (s : AppState) : AppState :=
  {| nodes := f (nodes s); edges := edges s; initialQuestion := initialQuestion s;
     processingLog := processingLog s; finalOutput := finalOutput s;
     isProcessing := isProcessing s; processingError := processingError s;
     currentProcessingNodeId := currentProcessingNodeId s; nodeErrors := nodeErrors s |}.

Definition setProcessingLog (f : list ProcessLogEntry -> list ProcessLogEntry)
    (s : AppState) : AppState :=
  {| nodes := nodes s; edges := edges s; initialQuestion := initialQuestion s;
     processingLog := f (processingLog s); finalOutput := finalOutput s;
     isProcessing := isProcessing s; processingError := processingError s;
     currentProcessingNodeId := currentProcessingNodeId s; nodeErrors := nodeErrors s |}.

Definition setFinalOutput (v : option string) (s : AppState) : AppState :=
  {| nodes := nodes s; edges := edges s; initialQuestion := initialQuestion s;
     processingLog := processingLog s; finalOutput := v;
     isProcessing := isProcessing s; processingError := processingError s;
     currentProcessingNodeId := currentProcessingNodeId s; nodeErrors := nodeErrors s |}.

Definition setIsProcessing (v : bool) (s : AppState) : AppState :=
  {| nodes := nodes s; edges := edges s; initialQuestion := initialQuestion s;
     processingLog := processingLog s; finalOutput := finalOutput s;
     isProcessing := v; processingError := processingError s;
     currentProcessingNodeId := currentProcessingNodeId s; nodeErrors := nodeErrors s |}.

Definition setProcessingError (v : option string) (s : AppState) : AppState :=
  {| nodes := nodes s; edges := edges s; initialQuestion := initialQuestion s;
     processingLog := processingLog s; finalOutput := finalOutput s;
     isProcessing := isProcessing s; processingError := v;
     currentProcessingNodeId := currentProcessingNodeId s; nodeErrors := nodeErrors s |}.

Definition setCurrentProcessingNodeId (v : option string) (s : AppState) : AppState :=
  {| nodes := nodes s; edges := edges s; initialQuestion := initialQuestion s;
     processingLog := processingLog s; finalOutput := finalOutput s;
     isProcessing := isProcessing s; processingError := processingError s;
     currentProcessingNodeId := v; nodeErrors := nodeErrors s |}.

Definition setNodeErrors (f : gmap string bool -> gmap string bool) (s : AppState) : AppState :=
  {| nodes := nodes s; edges := edges s; initialQuestion := initialQuestion s;
     processingLog := processingLog s; finalOutput := finalOutput s;
     isProcessing := isProcessing s; processingError := processingError s;
     currentProcessingNodeId := currentProcessingNodeId s; nodeErrors := f (nodeErrors s) |}.

(** ** The agent invocation service *)

Inductive TaskResult :=
  | Resolved (text : string) (resultGrounding : option (list GroundingChunk))
  | Rejected (errMessage : string).

(** ** Control state of the traversal *)

(** The [let]/[const] variables of the handler that live across iterations. *)
Record Locals := {
  currentNode : AgentNode;
  currentInput : string;
  visitedNodes : gset string
}.

(** How one iteration of the [for] body ends. *)
Inductive Flow := Break | Continue.

(** How the handler leaves: by one of its two [return]s, by a [break] of
    the loop, or by the loop condition [i < nodes.length + 10] failing. *)
Inductive Exit := EarlyReturn | LoopBreak | LoopExhausted.

#[global] Instance Exit_eq_dec : EqDecision Exit.
Proof. solve_decision. Defined.

(** [prev.map(n => n.id === id ? f n : n)]. *)
Definition updateNode (id : string) (f : AgentNode -> AgentNode)
    (prev : list AgentNode) : list AgentNode :=
  map (fun n => if decide (n_id n = id) then f n else n) prev.

Definition withLastProcessedInput (v : option string) (n : AgentNode) : AgentNode :=
  {| n_id := n_id n; n_type := n_type n; n_description := n_description n;
     n_x := n_x n; n_y := n_y n; n_output := n_output n;
     n_lastProcessedInput := v;
     n_enableInternetSearch := n_enableInternetSearch n;
     n_groundingMetadata := n_groundingMetadata n |}.

Definition withOutput (v : option string) (n : AgentNode) : AgentNode :=
  {| n_id := n_id n; n_type := n_type n; n_description := n_description n;
     n_x := n_x n; n_y := n_y n; n_output := v;
     n_lastProcessedInput := n_lastProcessedInput n;
     n_enableInternetSearch := n_enableInternetSearch n;
     n_groundingMetadata := n_groundingMetadata n |}.

Definition withGroundingMetadata (v : option (list GroundingChunk)) (n : AgentNode)
    : AgentNode :=
  {| n_id := n_id n; n_type := n_type n; n_description := n_description n;
     n_x := n_x n; n_y := n_y n; n_output := n_output n;
     n_lastProcessedInput := n_lastProcessedInput n;
     n_enableInternetSearch := n_enableInternetSearch n;
     n_groundingMetadata := v |}.

(** [{ ...n, output: undefined, lastProcessedInput: undefined,
       groundingMetadata: [] }] (line 287). *)
Definition clearRunFields (n : AgentNode) : AgentNode :=
  withGroundingMetadata (Some []) (withLastProcessedInput None (withOutput None n)).

(** The predicate of [outgoingEdges.find] on line 330:
    [edge.conditionKeyword &&
     currentInput.toLowerCase().includes(edge.conditionKeyword.toLowerCase())]. *)
Definition keywordMatches (currentInput : string) (edge : AgentEdge) : bool :=
  match e_conditionKeyword edge with
  | None => false
  | Some kw => truthy kw && includes (toLowerCase currentInput) (toLowerCase kw)
  end.

Definition isOutgoing (id : string) (e : AgentEdge) : bool :=
  bool_decide (e_sourceId e = id).

Section Engine.

Context {W : Type}.

(** [processAgentTask(description, input, enableInternetSearch)]. *)
Variable processAgentTask : string -> string -> option bool -> W -> TaskResult * W.

(** The wall clock read by [new Date()]. *)
Variable clock : nat -> Z.

(** The React state, the world of the invocation service, and the number
    of clock readings made so far by the handler. *)
Record Machine := {
  app : AppState;
  world : W;
  clockReads : nat
}.

Definition onApp (f : AppState -> AppState) (m : Machine) : Machine :=
  {| app := f (app m); world := world m; clockReads := clockReads m |}.

(** [addLog] (lines 83-85): append one entry stamped with the current time. *)
Definition addLog (msg : string) (st : LogStatus) (nid : option string)
    (gm : option (list GroundingChunk)) (m : Machine) : Machine :=
  {| app := setProcessingLog
              (fun prev => prev ++ [ {| timestamp := clock (clockReads m);
                                        message := msg; nodeId := nid; status := st;
                                        groundingMetadata := gm |} ])
              (app m);
     world := world m;
     clockReads := S (clockReads m) |}.

(** [setNodeErrors(prev => ({...prev, [id]: true}))]. *)
Definition markNodeError (id : string) (m : Machine) : Machine :=
  onApp (setNodeErrors (fun prev => <[ id := true ]> prev)) m.

(** Lines 346-357: follow [nextEdgeToFollow] to the next node. *)
Definition navigate (ns : list AgentNode) (nextEdgeToFollow : option AgentEdge)
    (ls : Locals) (m : Machine) : Flow * Locals * Machine :=
  let cur := currentNode ls in
  match nextEdgeToFollow with
  | None =>
      (Break, ls,
       markNodeError (n_id cur)
         (addLog ("Node '" +:+ n_description cur +:+ "' has no outgoing connection. Flow halted.")
                 error (Some (n_id cur)) None m))
  | Some edge =>
      match find (fun n => bool_decide (n_id n = e_targetId edge)) ns with
      | None =>
          (Break, ls,
           markNodeError (n_id cur)
             (addLog "Target node not found. Flow corrupted." error (Some (n_id cur)) None m))
      | Some nextNode =>
          (Continue,
           {| currentNode := nextNode; currentInput := currentInput ls;
              visitedNodes := visitedNodes ls |},
           m)
      end
  end.

(** Lines 301-357: one iteration of the main processing loop. *)
Definition body (ns : list AgentNode) (es : list AgentEdge)
    (ls : Locals) (m : Machine) : Flow * Locals * Machine :=
  let cur := currentNode ls in
  if decide (n_id cur ∈ visitedNodes ls) then
    (Break, ls,
     markNodeError (n_id cur)
       (addLog ("Cycle detected at node " +:+ n_id cur +:+ ". Halting.")
               error (Some (n_id cur)) None m))
  else
    let ls1 := {| currentNode := cur; currentInput := currentInput ls;
                  visitedNodes := {[ n_id cur ]} ∪ visitedNodes ls |} in
    let m1 := onApp (setCurrentProcessingNodeId (Some (n_id cur))) m in
    match n_type cur with
    | END =>
        (Break, ls1,
         addLog "Reached END node. Final output set." success (Some (n_id cur)) None
           (onApp (setNodes (updateNode (n_id cur)
                     (fun n => withOutput (Some (currentInput ls))
                                 (withLastProcessedInput (Some (currentInput ls)) n))))
              (onApp (setFinalOutput (Some (currentInput ls))) m1)))
    | START =>
        navigate ns (find (isOutgoing (n_id cur)) es) ls1 m1
    | AGENT | CONDITIONAL_AGENT =>
        let m2 := onApp (setNodes (updateNode (n_id cur)
                     (withLastProcessedInput (Some (currentInput ls))))) m1 in
        match processAgentTask (n_description cur) (currentInput ls)
                (n_enableInternetSearch cur) (world m2) with
        | (Resolved text gm, w') =>
            let ls2 := {| currentNode := cur; currentInput := text;
                          visitedNodes := visitedNodes ls1 |} in
            let m3 := {| app := setNodes (updateNode (n_id cur)
                                  (fun n => withGroundingMetadata (Some (default [] gm))
                                              (withOutput (Some text) n)))
                                (app m2);
                         world := w'; clockReads := clockReads m2 |} in
            let m4 := addLog (typeName (n_type cur) +:+ ": " +:+ dq +:+
                                substring0 50 text +:+ "..." +:+ dq)
                        success (Some (n_id cur)) gm m3 in
            if decide (n_type cur = CONDITIONAL_AGENT) then
              let outgoingEdges := List.filter (isOutgoing (n_id cur)) es in
              match find (keywordMatches text) outgoingEdges with
              | None =>
                  (Break, ls2,
                   markNodeError (n_id cur)
                     (addLog "Conditional output did not match any path keywords. Halting."
                             error (Some (n_id cur)) None m4))
              | Some edge => navigate ns (Some edge) ls2 m4
              end
            else
              navigate ns (find (isOutgoing (n_id cur)) es) ls2 m4
        | (Rejected errMessage, w') =>
            (Break, ls1,
             markNodeError (n_id cur)
               (addLog ("Error processing agent '" +:+ n_description cur +:+ "': " +:+ errMessage)
                       error (Some (n_id cur)) None
                       {| app := app m2; world := w'; clockReads := clockReads m2 |}))
        end
    end.

(** The [for] loop of line 300; [fuel] is the number of iterations the loop
    condition still allows. *)
Fixpoint loop (ns : list AgentNode) (es : list AgentEdge) (fuel : nat)
    (ls : Locals) (m : Machine) : Exit * Locals * Machine :=
  match fuel with
  | O => (LoopExhausted, ls, m)
  | S fuel' =>
      match body ns es ls m with
      | (Break, ls', m') => (LoopBreak, ls', m')
      | (Continue, ls', m') => loop ns es fuel' ls' m'
      end
  end.

(** Lines 285-289: reset the state for a new run and log the start. *)
Definition resetForRun (q : string) (m : Machine) : Machine :=
  addLog ("Starting flow with question: " +:+ dq +:+ q +:+ dq) info None None
    (onApp (setNodes (map clearRunFields))
      (onApp (setNodeErrors (fun _ => ∅))
        (onApp (setCurrentProcessingNodeId None)
          (onApp (setProcessingError None)
            (onApp (setFinalOutput None)
              (onApp (setProcessingLog (fun _ => []))
                (onApp (setIsProcessing true) m))))))).

(** Lines 360-361. *)
Definition finishRun (m : Machine) : Machine :=
  onApp (setCurrentProcessingNodeId None) (onApp (setIsProcessing false) m).

(** The traversal of one run, with the loop's final local variables: the
    part of [handleProcessFlow] from line 285 to the end of the loop.  It
    returns [None] for the locals when no START node is found. *)
Definition traverse (m : Machine) : Exit * option Locals * Machine :=
  let ns := nodes (app m) in
  let es := edges (app m) in
  let q := initialQuestion (app m) in
  let m1 := resetForRun q m in
  match find (fun n => bool_decide (n_type n = START)) ns with
  | None =>
      (EarlyReturn, None,
       onApp (setIsProcessing false) (addLog "START node not found." error None None m1))
  | Some startNode =>
      match loop ns es (length ns + 10)
              {| currentNode := startNode; currentInput := q; visitedNodes := ∅ |} m1 with
      | (ex, ls, m2) => (ex, Some ls, finishRun m2)
      end
  end.

(** [handleProcessFlow] (lines 279-362). *)
Definition handleProcessFlow (m : Machine) : Exit * Machine :=
  if truthy (trim (initialQuestion (app m))) then
    match traverse m with
    | (ex, _, m') => (ex, m')
    end
  else
    (EarlyReturn, addLog "Initial question cannot be empty." error None None m).

End Engine.

Arguments Machine W : clear implicits.

(** ** Vocabulary of the properties *)

(** The entry logged on reaching END (line 312). *)
Definition isCompleted (e : ProcessLogEntry) : Prop :=
  status e = success ∧ message e = "Reached END node. Final output set.".

(** A log entry that closes a run: the END entry or an error entry. *)
Definition isTerminal (e : ProcessLogEntry) : Prop :=
  status e = error ∨ isCompleted e.

(** The ids of the nodes, as a set. *)
Definition nodeIds (ns : list AgentNode) : gset string := list_to_set (map n_id ns).

(** The fields of a node that describe the graph: everything but the three
    display fields [output], [lastProcessedInput] and [groundingMetadata]. *)
Definition structure (n : AgentNode)
    : string * NodeType * string * Z * Z * option bool :=
  (n_id n, n_type n, n_description n, n_x n, n_y n, n_enableInternetSearch n).

(** Two states hold the same graph and question. *)
Definition sameGraph (s s' : AppState) : Prop :=
  map structure (nodes s') = map structure (nodes s) ∧
  edges s' = edges s ∧
  initialQuestion s' = initialQuestion s.

(** The entry logged when an agent's call resolves (line 325). *)
Definition isNodeOutput (e : ProcessLogEntry) : bool :=
  bool_decide (status e = success) &&
  (String.prefix "AGENT: " (message e) || String.prefix "CONDITIONAL_AGENT: " (message e)).

(** The entry logged on arriving at a marked node (line 302). *)
Definition isCycleEntry (id : string) (e : ProcessLogEntry) : Prop :=
  status e = error ∧ nodeId e = Some id ∧
  message e = "Cycle detected at node " +:+ id +:+ ". Halting.".

(** [kw] occurs in [t] with the letter case ignored: some part of [t] is
    [kw] up to the case of its letters. *)
Definition occursIgnoringCase (kw t : string) : Prop :=
  ∃ pre mid post, t = pre +:+ mid +:+ post ∧ toLowerCase mid = toLowerCase kw.

(** An edge's keyword is non-empty and occurs in [t], letter case ignored. *)
Definition matchesKeyword (t : string) (e : AgentEdge) : Prop :=
  ∃ kw, e_conditionKeyword e = Some kw ∧ kw ≠ EmptyString ∧ occursIgnoringCase kw t.

(** [e] is the first edge of [es], in list order, that leaves [id] and
    satisfies [P]. *)
Definition firstOutgoing (P : AgentEdge → Prop) (id : string)
    (es : list AgentEdge) (e : AgentEdge) : Prop :=
  ∃ l1 l2, es = l1 ++ e :: l2 ∧ e_sourceId e = id ∧ P e ∧
           ∀ e', In e' l1 → e_sourceId e' = id → ¬ P e'.

(** The locals after line 305. *)
Definition marked (ls : Locals) : Locals :=
  {| currentNode := currentNode ls; currentInput := currentInput ls;
     visitedNodes := {[ n_id (currentNode ls) ]} ∪ visitedNodes ls |}.

(** The entry logged when the call of the agent [n] resolves with [text]
    (line 325), stamped [ts]. *)
Definition outputEntry (ts : Z) (n : AgentNode) (text : string)
    (gm : option (list GroundingChunk)) : ProcessLogEntry :=
  {| timestamp := ts;
     message := typeName (n_type n) +:+ ": " +:+ dq +:+ substring0 50 text +:+ "..." +:+ dq;
     nodeId := Some (n_id n); status := success; groundingMetadata := gm |}.

(** The locals after an edge has been followed to [n] with payload [t]. *)
Definition movedTo (n : AgentNode) (t : string) (ls : Locals) : Locals :=
  {| currentNode := n; currentInput := t;
     visitedNodes := {[ n_id (currentNode ls) ]} ∪ visitedNodes ls |}.

(** A log entry without its time stamp. *)
Definition eraseTimestamp (e : ProcessLogEntry) : ProcessLogEntry :=
  {| timestamp := 0%Z; message := message e; nodeId := nodeId e;
     status := status e; groundingMetadata := groundingMetadata e |}.

(** A state with the time stamps of its log erased. *)
Definition untimed (s : AppState) : AppState :=
  setProcessingLog (map eraseTimestamp) s.

(** Two machines that differ at most in the time stamps of their logs and
    in the number of clock readings. *)
Definition sameButTime {W : Type} (m1 m2 : Machine W) : Prop :=
  untimed (app m1) = untimed (app m2) ∧ world m1 = world m2.

(** The ids of the nodes at which the iterations of the loop start, in
    order: the successive values of [currentNode.id] on line 301. *)
Fixpoint arrivals {W : Type}
    (svc : string -> string -> option bool -> W -> TaskResult * W) (clock : nat -> Z)
    (ns : list AgentNode) (es : list AgentEdge) (fuel : nat)
    (ls : Locals) (m : Machine W) : list string :=
  match fuel with
  | O => []
  | S fuel' =>
      n_id (currentNode ls) ::
      match body svc clock ns es ls m with
      | (Continue, ls', m') => arrivals svc clock ns es fuel' ls' m'
      | (Break, _, _) => []
      end
  end.

(** ** Graphs, services and clocks of the examples *)

(** A node as the editor creates it (lines 52-53 and 156-161). *)
Definition mkNode (id : string) (t : NodeType) (d : string) : AgentNode :=
  {| n_id := id; n_type := t; n_description := d; n_x := 0%Z; n_y := 0%Z;
     n_output := Some EmptyString; n_lastProcessedInput := Some EmptyString;
     n_enableInternetSearch :=
       match t with AGENT | CONDITIONAL_AGENT => Some false | _ => None end;
     n_groundingMetadata := Some [] |}.

Definition mkEdge (id src tgt kw : string) : AgentEdge :=
  {| e_id := id; e_sourceId := src; e_targetId := tgt; e_conditionKeyword := Some kw |}.

(** A state in which nothing has run yet. *)
Definition mkApp (ns : list AgentNode) (es : list AgentEdge) (q : string) : AppState :=
  {| nodes := ns; edges := es; initialQuestion := q; processingLog := [];
     finalOutput := None; isProcessing := false; processingError := None;
     currentProcessingNodeId := None; nodeErrors := ∅ |}.

(** The world of the stub services: the calls received so far. *)
Definition Calls : Type := list (string * string * option bool).

Definition boot (s : AppState) : Machine Calls :=
  {| app := s; world := []; clockReads := 0 |}.

(** A stub that returns its input unchanged. *)
Definition echoService (d i : string) (b : option bool) (w : Calls) : TaskResult * Calls :=
  (Resolved i (Some []), w ++ [(d, i, b)]).


(** A stub that always rejects with [msg]. *)
Definition failingService (msg : string) (d i : string) (b : option bool) (w : Calls)
    : TaskResult * Calls :=
  (Rejected msg, w ++ [(d, i, b)]).

Definition tick (k : nat) : Z := Z.of_nat k.
Definition tock (k : nat) : Z := (1000 + Z.of_nat k)%Z.

(** START -> AGENT -> END. *)
Definition happyPath : AppState :=
  mkApp [mkNode "s" START "Workflow Start"; mkNode "a" AGENT "uppercase";
         mkNode "e" END "Workflow End"]
        [mkEdge "e1" "s" "a" EmptyString; mkEdge "e2" "a" "e" EmptyString]
        "hello".


(** START -> A -> B -> A. *)
Definition cyclic : AppState :=
  mkApp [mkNode "s" START "Workflow Start"; mkNode "a" AGENT "A"; mkNode "b" AGENT "B"]
        [mkEdge "e1" "s" "a" EmptyString; mkEdge "e2" "a" "b" EmptyString;
         mkEdge "e3" "b" "a" EmptyString]
        "go".

(** Two START nodes; the first one leads to END. *)
Definition twoStarts : AppState :=
  mkApp [mkNode "s1" START "Workflow Start"; mkNode "s2" START "Second Start";
         mkNode "e" END "Workflow End"]
        [mkEdge "e1" "s1" "e" EmptyString]
        "hi".

(** No START node. *)
Definition noStart : AppState :=
  mkApp [mkNode "a" AGENT "A"; mkNode "e" END "Workflow End"]
        [mkEdge "e1" "a" "e" EmptyString]
        "hi".

(** A START node with two outgoing edges. *)
Definition twoEdges : AppState :=
  mkApp [mkNode "s" START "Workflow Start"; mkNode "x" END "first";
         mkNode "y" END "second"]
        [mkEdge "e1" "s" "x" EmptyString; mkEdge "e2" "s" "y" EmptyString]
        "hi".

(** ** Further vocabulary: the engine *)

(** An agent node: one whose iteration calls the service. *)
Definition isAgent (n : AgentNode) : bool :=
  bool_decide (n_type n = AGENT) || bool_decide (n_type n = CONDITIONAL_AGENT).

(** A service that counts the calls it receives, next to its own world. *)
Definition counted {W : Type}
    (svc : string -> string -> option bool -> W -> TaskResult * W)
    (d i : string) (b : option bool) (w : W * nat) : TaskResult * (W * nat) :=
  match svc d i b (fst w) with
  | (r, w') => (r, (w', S (snd w)))
  end.

(** The entry logged when an edge leads to a node that is not in the graph
    (line 354). *)
Definition isCorruptEntry (e : ProcessLogEntry) : Prop :=
  message e = "Target node not found. Flow corrupted.".

(** Every edge of [es] leads to a node of [ns]. *)
Definition targetsExist (ns : list AgentNode) (es : list AgentEdge) : Prop :=
  ∀ e, In e es → ∃ n, In n ns ∧ n_id n = e_targetId e.

(** Two locals that agree up to the display fields of the current node. *)
Definition sameLocals (l1 l2 : Locals) : Prop :=
  structure (currentNode l1) = structure (currentNode l2) ∧
  currentInput l1 = currentInput l2 ∧
  visitedNodes l1 = visitedNodes l2.

(** START with one edge, which leads to an id no node has. *)
Definition dangling : AppState :=
  mkApp [mkNode "s" START "Workflow Start"; mkNode "e" END "Workflow End"]
        [mkEdge "e1" "s" "ghost" EmptyString]
        "hi".

(** The state left by a failed run of START -> AGENT -> END, handed to a
    service and a clock that start afresh. *)
Definition afterFailedRun : Machine Calls :=
  {| app := app (snd (handleProcessFlow (failingService "boom") tick (boot happyPath)));
     world := []; clockReads := 0 |}.

(** ** The editor: the other handlers of [src/App.tsx]

    The handlers below change the graph and the selection.  They read
    [nodes], [edges], [selectedNodeId] and [connectingFromNodeId] from the
    closure, that is from the state at the moment they are called.  The
    values of [crypto.randomUUID()] and the answer of [window.confirm] are
    parameters.  The placement computation of [handleAddNode] (lines
    96-152) and the pointer arithmetic of the drag handler (lines 402-406)
    work on floating-point numbers and [Math.random]; only their results,
    the coordinates given to the node, are parameters here. *)

(** The constants of [constants.ts] (src/types.ts, lines 48-56). *)
Definition NODE_WIDTH : Z := 200.
Definition NODE_HEIGHT : Z := 120.
Definition CANVAS_WIDTH : Z := 3000.
Definition CANVAS_HEIGHT : Z := 2000.

(** [s.replace(/_/g, ' ')]. *)
Fixpoint replaceUnderscores (s : string) : string :=
  match s with
  | EmptyString => EmptyString
  | String c s' =>
      String (if Ascii.eqb c (ascii_of_nat 95) then ascii_of_nat 32 else c)
             (replaceUnderscores s')
  end.

(** Truthiness of a [string | null]. *)
Definition truthyOpt (o : option string) : bool :=
  match o with
  | None => false
  | Some s => truthy s
  end.

Definition setEdges (f : list AgentEdge -> list AgentEdge) (s : AppState) : AppState :=
  {| nodes := nodes s; edges := f (edges s); initialQuestion := initialQuestion s;
     processingLog := processingLog s; finalOutput := finalOutput s;
     isProcessing := isProcessing s; processingError := processingError s;
     currentProcessingNodeId := currentProcessingNodeId s; nodeErrors := nodeErrors s |}.

Definition setInitialQuestion (q : string) (s : AppState) : AppState :=
  {| nodes := nodes s; edges := edges s; initialQuestion := q;
     processingLog := processingLog s; finalOutput := finalOutput s;
     isProcessing := isProcessing s; processingError := processingError s;
     currentProcessingNodeId := currentProcessingNodeId s; nodeErrors := nodeErrors s |}.

Definition withDescription (d : string) (n : AgentNode) : AgentNode :=
  {| n_id := n_id n; n_type := n_type n; n_description := d;
     n_x := n_x n; n_y := n_y n; n_output := n_output n;
     n_lastProcessedInput := n_lastProcessedInput n;
     n_enableInternetSearch := n_enableInternetSearch n;
     n_groundingMetadata := n_groundingMetadata n |}.

Definition withEnableInternetSearch (b : option bool) (n : AgentNode) : AgentNode :=
  {| n_id := n_id n; n_type := n_type n; n_description := n_description n;
     n_x := n_x n; n_y := n_y n; n_output := n_output n;
     n_lastProcessedInput := n_lastProcessedInput n;
     n_enableInternetSearch := b;
     n_groundingMetadata := n_groundingMetadata n |}.

Definition withPosition (x y : Z) (n : AgentNode) : AgentNode :=
  {| n_id := n_id n; n_type := n_type n; n_description := n_description n;
     n_x := x; n_y := y; n_output := n_output n;
     n_lastProcessedInput := n_lastProcessedInput n;
     n_enableInternetSearch := n_enableInternetSearch n;
     n_groundingMetadata := n_groundingMetadata n |}.

Definition withConditionKeyword (kw : option string) (e : AgentEdge) : AgentEdge :=
  {| e_id := e_id e; e_sourceId := e_sourceId e; e_targetId := e_targetId e;
     e_conditionKeyword := kw |}.

Section Editor.

Context {W : Type}.

(** The wall clock read by [addLog]. *)
Variable clock : nat -> Z.

(** The state of [App]: the part a run touches, and the selection. *)
Record Editor := {
  machine : Machine W;
  selectedNodeId : option string;
  connectingFromNodeId : option string;
  draggingNodeId : option string
}.

Definition onMachine (f : Machine W -> Machine W) (e : Editor) : Editor :=
  {| machine := f (machine e); selectedNodeId := selectedNodeId e;
     connectingFromNodeId := connectingFromNodeId e; draggingNodeId := draggingNodeId e |}.

Definition setSelectedNodeId (v : option string) (e : Editor) : Editor :=
  {| machine := machine e; selectedNodeId := v;
     connectingFromNodeId := connectingFromNodeId e; draggingNodeId := draggingNodeId e |}.

Definition setConnectingFromNodeId (v : option string) (e : Editor) : Editor :=
  {| machine := machine e; selectedNodeId := selectedNodeId e;
     connectingFromNodeId := v; draggingNodeId := draggingNodeId e |}.

Definition setDraggingNodeId (v : option string) (e : Editor) : Editor :=
  {| machine := machine e; selectedNodeId := selectedNodeId e;
     connectingFromNodeId := connectingFromNodeId e; draggingNodeId := v |}.

Definition graphNodes (e : Editor) : list AgentNode := nodes (app (machine e)).
Definition graphEdges (e : Editor) : list AgentEdge := edges (app (machine e)).

(** [initializeFlow] (lines 48-65), with the two ids drawn. *)
Definition initializeFlow (startNodeId endNodeId : string) (e : Editor) : Editor :=
  {| machine :=
       {| app :=
            {| nodes :=
                 [ {| n_id := startNodeId; n_type := START;
                      n_description := "Workflow Start";
                      n_x := 50; n_y := (CANVAS_HEIGHT / 2 - NODE_HEIGHT / 2)%Z;
                      n_output := Some EmptyString;
                      n_lastProcessedInput := Some EmptyString;
                      n_enableInternetSearch := None;
                      n_groundingMetadata := Some [] |};
                   {| n_id := endNodeId; n_type := END;
                      n_description := "Workflow End";
                      n_x := (CANVAS_WIDTH - NODE_WIDTH - 50)%Z;
                      n_y := (CANVAS_HEIGHT / 2 - NODE_HEIGHT / 2)%Z;
                      n_output := Some EmptyString;
                      n_lastProcessedInput := Some EmptyString;
                      n_enableInternetSearch := None;
                      n_groundingMetadata := Some [] |} ];
               edges := [];
               initialQuestion := EmptyString;
               processingLog := [];
               finalOutput := None;
               isProcessing := false;
               processingError := None;
               currentProcessingNodeId := None;
               nodeErrors := ∅ |};
          world := world (machine e);
          clockReads := clockReads (machine e) |};
     selectedNodeId := None;
     connectingFromNodeId := None;
     draggingNodeId := draggingNodeId e |}.

(** [handleAddNode] (lines 94-164); [newId] is the id drawn and [x], [y]
    the position computed for the node. *)
Definition handleAddNode (type : NodeType) (newId : string) (x y : Z) (e : Editor) : Editor :=
  let defaultDescription :=
    "New " +:+ replaceUnderscores (typeName type) +:+ " " +:+
    pretty (length (List.filter (fun n => bool_decide (n_type n = type)) (graphNodes e)) + 1) in
  let newNode :=
    {| n_id := newId; n_type := type; n_description := defaultDescription;
       n_x := x; n_y := y;
       n_output := Some EmptyString; n_lastProcessedInput := Some EmptyString;
       n_enableInternetSearch :=
         if bool_decide (type = AGENT) || bool_decide (type = CONDITIONAL_AGENT)
         then Some false else None;
       n_groundingMetadata := Some [] |} in
  setSelectedNodeId (Some newId)
    (onMachine (onApp (setNodes (fun prev => prev ++ [newNode]))) e).

(** [handleNodeClick] (lines 174-196); [newId] is the id drawn for the
    edge, should one be created. *)
Definition handleNodeClick (nodeId : string) (newId : string) (e : Editor) : Editor :=
  match connectingFromNodeId e with
  | Some from =>
      if truthy from && negb (bool_decide (from = nodeId)) then
        let sourceNode := find (fun n => bool_decide (n_id n = from)) (graphNodes e) in
        let targetNode := find (fun n => bool_decide (n_id n = nodeId)) (graphNodes e) in
        setConnectingFromNodeId None
          match sourceNode, targetNode with
          | Some src, Some tgt =>
              if negb (bool_decide (n_type src = END)) &&
                 negb (bool_decide (n_type tgt = START)) then
                let existingEdgeFromSource :=
                  find (fun edge => bool_decide (e_sourceId edge = from)) (graphEdges e) in
                if (bool_decide (n_type src = START) || bool_decide (n_type src = AGENT))
                   && bool_decide (is_Some existingEdgeFromSource)
                then
                  onMachine
                    (addLog clock
                       (replaceUnderscores (typeName (n_type src)) +:+
                        " nodes can only have one outgoing connection. Delete existing one first.")
                       error None None) e
                else
                  let newEdge :=
                    {| e_id := newId; e_sourceId := from; e_targetId := nodeId;
                       e_conditionKeyword := Some EmptyString |} in
                  onMachine
                    (fun m =>
                       addLog clock
                         ("Connected " +:+ substring0 10 (typeName (n_type src)) +:+
                          "... to " +:+ substring0 10 (typeName (n_type tgt)) +:+ "...")
                         info None None
                         (onApp (setEdges (fun prev => prev ++ [newEdge])) m)) e
              else
                onMachine (addLog clock "Invalid connection attempt." error None None) e
          | _, _ =>
              onMachine (addLog clock "Invalid connection attempt." error None None) e
          end
      else setSelectedNodeId (Some nodeId) e
  | None => setSelectedNodeId (Some nodeId) e
  end.

(** [handleUpdateNodeDescription] (lines 205-207). *)
Definition handleUpdateNodeDescription (nodeId description : string) (e : Editor) : Editor :=
  onMachine (onApp (setNodes (updateNode nodeId (withDescription description)))) e.

(** [handleToggleInternetSearch] (lines 213-219). *)
Definition handleToggleInternetSearch (nodeId : string) (enabled : bool) (e : Editor)
    : Editor :=
  onMachine
    (onApp (setNodes
       (map (fun n =>
               if bool_decide (n_id n = nodeId) &&
                  (bool_decide (n_type n = AGENT) || bool_decide (n_type n = CONDITIONAL_AGENT))
               then withEnableInternetSearch (Some enabled) n
               else n)))) e.

(** [handleUpdateEdgeKeyword] (lines 225-227). *)
Definition handleUpdateEdgeKeyword (edgeId keyword : string) (e : Editor) : Editor :=
  onMachine
    (onApp (setEdges
       (map (fun edge =>
               if bool_decide (e_id edge = edgeId)
               then withConditionKeyword (Some (trim keyword)) edge
               else edge)))) e.

(** [handleDeleteNode] (lines 233-237). *)
Definition handleDeleteNode (nodeId : string) (e : Editor) : Editor :=
  let e1 :=
    onMachine
      (onApp (fun s =>
         setEdges (List.filter (fun edge =>
                     negb (bool_decide (e_sourceId edge = nodeId)) &&
                     negb (bool_decide (e_targetId edge = nodeId))))
           (setNodes (List.filter (fun n => negb (bool_decide (n_id n = nodeId)))) s))) e in
  if bool_decide (selectedNodeId e = Some nodeId) then setSelectedNodeId None e1 else e1.

(** [handleDeleteEdge] (lines 240-242). *)
Definition handleDeleteEdge (edgeId : string) (e : Editor) : Editor :=
  onMachine
    (onApp (setEdges (List.filter (fun edge => negb (bool_decide (e_id edge = edgeId)))))) e.

(** [handleDeleteEdgesFromSource] (lines 245-247). *)
Definition handleDeleteEdgesFromSource (sourceId : string) (e : Editor) : Editor :=
  onMachine
    (onApp (setEdges
       (List.filter (fun edge => negb (bool_decide (e_sourceId edge = sourceId)))))) e.

(** [handleDeleteEdgesToTarget] (lines 250-252). *)
Definition handleDeleteEdgesToTarget (targetId : string) (e : Editor) : Editor :=
  onMachine
    (onApp (setEdges
       (List.filter (fun edge => negb (bool_decide (e_targetId edge = targetId)))))) e.

(** [handleStartConnection] (lines 259-262). *)
Definition handleStartConnection (nodeId : string) (e : Editor) : Editor :=
  setSelectedNodeId (Some nodeId) (setConnectingFromNodeId (Some nodeId) e).

(** [handleClearFlow] (lines 265-269); [confirmed] is the answer of the
    confirmation dialog. *)
Definition handleClearFlow (confirmed : bool) (startNodeId endNodeId : string)
    (e : Editor) : Editor :=
  if confirmed then initializeFlow startNodeId endNodeId e else e.

(** [handleNodeMouseDown] (lines 369-378), without the drag offset. *)
Definition handleNodeMouseDown (nodeId : string) (e : Editor) : Editor :=
  match find (fun n => bool_decide (n_id n = nodeId)) (graphNodes e) with
  | None => e
  | Some _ => setSelectedNodeId (Some nodeId) (setDraggingNodeId (Some nodeId) e)
  end.

(** [handleCanvasClick] (lines 382-384). *)
Definition handleCanvasClick (e : Editor) : Editor :=
  if truthyOpt (draggingNodeId e) then e
  else setConnectingFromNodeId None (setSelectedNodeId None e).

(** [handleGlobalMouseMove] (lines 400-408); [newX], [newY] is the position
    computed from the pointer. *)
Definition handleGlobalMouseMove (newX newY : Z) (e : Editor) : Editor :=
  match draggingNodeId e with
  | Some d =>
      if truthy d then onMachine (onApp (setNodes (updateNode d (withPosition newX newY)))) e
      else e
  | None => e
  end.

(** [handleGlobalMouseUp] (line 409). *)
Definition handleGlobalMouseUp (e : Editor) : Editor := setDraggingNodeId None e.

End Editor.

Arguments Editor W : clear implicits.

(** ** Vocabulary of the editor properties *)

Definition isType (t : NodeType) (n : AgentNode) : bool := bool_decide (n_type n = t).

(** The graphs the editor is meant to build: node ids are unique; there is
    one START and one END node; every edge leaves a node of the graph that
    is not END and leads to another node of the graph that is not START;
    START and plain AGENT nodes have at most one outgoing edge. *)
Record WellFormed (ns : list AgentNode) (es : list AgentEdge) : Prop := {
  wf_ids : NoDup (map n_id ns);
  wf_start : length (List.filter (isType START) ns) = 1;
  wf_end : length (List.filter (isType END) ns) = 1;
  wf_source : ∀ e, In e es → ∃ n, In n ns ∧ n_id n = e_sourceId e ∧ n_type n ≠ END;
  wf_target : ∀ e, In e es → ∃ n, In n ns ∧ n_id n = e_targetId e ∧ n_type n ≠ START;
  wf_no_loop : ∀ e, In e es → e_sourceId e ≠ e_targetId e;
  wf_single : ∀ n, In n ns → n_type n = START ∨ n_type n = AGENT →
                   length (List.filter (isOutgoing (n_id n)) es) ≤ 1
}.

(** What the user can do to the state of [App].  Each constructor is one
    handler, with the arguments the components call it with.  Two handlers
    are reachable only under a guard of the component that offers them:
    the toolbar adds AGENT and CONDITIONAL_AGENT nodes only, and the edit
    panel offers to delete the selected node only when it is neither START
    nor END ([canDelete]).  The ids drawn by [crypto.randomUUID()] are
    taken to be fresh.  A run is one step: the handler is taken to finish
    before the next user action. *)
Inductive uiStep {W : Type} : Editor W → Editor W → Prop :=
  | ui_addNode e t newId x y :
      t = AGENT ∨ t = CONDITIONAL_AGENT →
      ¬ In newId (map n_id (graphNodes e)) →
      uiStep e (handleAddNode t newId x y e)
  | ui_nodeClick clock e nodeId newId :
      uiStep e (handleNodeClick clock nodeId newId e)
  | ui_updateDescription e nodeId d :
      uiStep e (handleUpdateNodeDescription nodeId d e)
  | ui_toggleSearch e nodeId b :
      uiStep e (handleToggleInternetSearch nodeId b e)
  | ui_updateKeyword e edgeId kw :
      uiStep e (handleUpdateEdgeKeyword edgeId kw e)
  | ui_deleteNode e n :
      selectedNodeId e = Some (n_id n) →
      find (fun n0 => bool_decide (n_id n0 = n_id n)) (graphNodes e) = Some n →
      n_type n ≠ START → n_type n ≠ END →
      uiStep e (handleDeleteNode (n_id n) e)
  | ui_deleteEdge e edgeId :
      uiStep e (handleDeleteEdge edgeId e)
  | ui_deleteEdgesFromSource e nodeId :
      uiStep e (handleDeleteEdgesFromSource nodeId e)
  | ui_deleteEdgesToTarget e nodeId :
      uiStep e (handleDeleteEdgesToTarget nodeId e)
  | ui_startConnection e nodeId :
      uiStep e (handleStartConnection nodeId e)
  | ui_clearFlow e confirmed startNodeId endNodeId :
      startNodeId ≠ endNodeId →
      uiStep e (handleClearFlow confirmed startNodeId endNodeId e)
  | ui_mouseDown e nodeId :
      uiStep e (handleNodeMouseDown nodeId e)
  | ui_canvasClick e :
      uiStep e (handleCanvasClick e)
  | ui_mouseMove e x y :
      uiStep e (handleGlobalMouseMove x y e)
  | ui_mouseUp e :
      uiStep e (handleGlobalMouseUp e)
  | ui_question e q :
      uiStep e (onMachine (onApp (setInitialQuestion q)) e)
  | ui_processFlow svc clock e :
      uiStep e (onMachine (fun m => snd (handleProcessFlow svc clock m)) e).

(** The states the user can reach from a freshly initialised flow. *)
Inductive reachable {W : Type} : Editor W → Prop :=
  | reachable_init e0 startNodeId endNodeId :
      startNodeId ≠ endNodeId →
      reachable (initializeFlow startNodeId endNodeId e0)
  | reachable_step e e' :
      reachable e → uiStep e e' → reachable e'.

(** The state of the component before its first effect has run. *)
Definition blankEditor : Editor Calls :=
  {| machine := boot (mkApp [] [] EmptyString); selectedNodeId := None;
     connectingFromNodeId := None; draggingNodeId := None |}.

(** A fresh flow, as the component shows it after mounting. *)
Definition freshEditor : Editor Calls := initializeFlow "s" "e" blankEditor.

(** The fresh flow with START connected to END. *)
Definition connectedEditor : Editor Calls :=
  handleNodeClick tick "e" "k1" (handleStartConnection "s" freshEditor).

(** ** The language-model service: src/services/geminiService.ts *)

(** The model named by [GEMINI_MODEL_TEXT]. *)
Definition GEMINI_MODEL_TEXT : string := "gemini-2.5-flash".

Module geminiService.

(** The one tool the service asks for. *)
Inductive Tool := googleSearch.

(** The request passed to [generateContent] (lines 66-81). *)
Record ModelConfig := {
  systemInstruction : string;
  tools : option (list Tool)
}.

Record GenerateContentParameters := {
  model : string;
  contents : string;
  config : ModelConfig
}.

(** The parts of the response the service reads (lines 83-89). *)
Record CandidateGrounding := { groundingChunks : option (list GroundingChunk) }.

Record Candidate := { candidateGrounding : option CandidateGrounding }.

Record GenerateContentResponse := {
  responseText : string;
  candidates : option (list Candidate)
}.

(** What a [catch] clause receives: an [Error] with its message, or some
    other value. *)
Inductive Thrown :=
  | ErrorObject (errorMessage : string)
  | OtherValue.

Section Service.

Context {I C : Type}.

(** [process.env.API_KEY]. *)
Variable API_KEY : option string.

(** [new GoogleGenAI({ apiKey })]: the client, or [None] when the
    constructor throws. *)
Variable newGoogleGenAI : string -> option I.

(** [models.generateContent] of a client: it resolves with a response or
    rejects with a thrown value, and moves the state [C] of the remote
    side. *)
Variable generateContent :
  I -> GenerateContentParameters -> C -> (GenerateContentResponse + Thrown) * C.

(** The state of the module: the variable [ai] of line 7, beside the
    state of the remote side. *)
Record Service := { ai : option I; remote : C }.

(** [getAi] (lines 19-35). *)
Definition getAi (s : Service) : (I + Thrown) * Service :=
  match ai s with
  | Some i => (inl i, s)
  | None =>
      if truthyOpt API_KEY then
        match newGoogleGenAI (default EmptyString API_KEY) with
        | Some i => (inl i, {| ai := Some i; remote := remote s |})
        | None =>
            (inr (ErrorObject
                    "Gemini AI service could not be initialized. Check API Key and network."),
             s)
        end
      else
        (inr (ErrorObject
                "Gemini API Key is not configured. Please set the API_KEY environment variable."),
         s)
  end.

(** The request built on lines 62-81. *)
Definition request (agentDescription input : string) (enableInternetSearch : option bool)
    : GenerateContentParameters :=
  {| model := GEMINI_MODEL_TEXT;
     contents := "Input to process: " +:+ dq +:+ input +:+ dq;
     config :=
       {| systemInstruction :=
            "You are an AI agent. Your defined role/task is: " +:+ dq +:+ agentDescription
            +:+ dq +:+
            ". Process the given input according to this role and provide a concise output.";
          tools := if default false enableInternetSearch then Some [googleSearch] else None |} |}.

(** The sources read from a response (lines 84-89). *)
Definition sources (enableInternetSearch : option bool) (response : GenerateContentResponse)
    : option (list GroundingChunk) :=
  if default false enableInternetSearch then
    match candidates response with
    | Some (c :: _) =>
        match candidateGrounding c with
        | Some g => groundingChunks g
        | None => None
        end
    | _ => None
    end
  else None.

(** The [try] block of [processAgentTask] (lines 59-91). *)
Definition attempt (agentDescription input : string) (enableInternetSearch : option bool)
    (s : Service) : (string * list GroundingChunk + Thrown) * Service :=
  match getAi s with
  | (inr t, s1) => (inr t, s1)
  | (inl aiInstance, s1) =>
      match generateContent aiInstance
              (request agentDescription input enableInternetSearch) (remote s1) with
      | (inr t, c) => (inr t, {| ai := ai s1; remote := c |})
      | (inl response, c) =>
          let text := responseText response in
          let groundingMetadata := sources enableInternetSearch response in
          (inl (text, default [] groundingMetadata), {| ai := ai s1; remote := c |})
      end
  end.

(** [processAgentTask] (lines 53-100). *)
Definition processAgentTask (agentDescription input : string)
    (enableInternetSearch : option bool) (s : Service) : TaskResult * Service :=
  match attempt agentDescription input enableInternetSearch s with
  | (inl (text, groundingMetadata), s') => (Resolved text (Some groundingMetadata), s')
  | (inr (ErrorObject errorMessage), s') =>
      (Rejected ("Gemini API Error: " +:+ errorMessage), s')
  | (inr OtherValue, s') => (Rejected "An unknown error occurred with the Gemini API.", s')
  end.

End Service.

Arguments Service I C : clear implicits.

End geminiService.

(** A client for the examples: it answers with the prompt it was sent and
    one source, and counts the requests. *)
Definition stubClient (i : unit) (r : geminiService.GenerateContentParameters) (c : nat)
    : (geminiService.GenerateContentResponse + geminiService.Thrown) * nat :=
  (inl {| geminiService.responseText := geminiService.contents r;
          geminiService.candidates :=
            Some [ {| geminiService.candidateGrounding :=
                        Some {| geminiService.groundingChunks :=
                                  Some [ {| web := Some {| uri := "https://example.org";
                                                           title := "Example" |} |} ] |} |} ] |},
   S c).

(** The service before its first call. *)
Definition coldService : geminiService.Service unit nat :=
  {| geminiService.ai := None; geminiService.remote := 0 |}.

(** [components/LogPanel.tsx], lines 39-41: the entries shown for the
    selected node. *)
Definition displayedLogs (logs : list ProcessLogEntry) (selectedNodeId : option string)
    : list ProcessLogEntry :=
  if truthyOpt selectedNodeId then
    List.filter (fun log => bool_decide (nodeId log = selectedNodeId)
                            || negb (truthyOpt (nodeId log))) logs
  else logs.

(** The happy path against the real service, before its first call. *)
Definition coldRun : Machine (geminiService.Service unit nat) :=
  {| app := happyPath; world := coldService; clockReads := 0 |}.

(** ** Strings *)

Lemma append_cons c (a b : string) : String c a +:+ b = String c (a +:+ b).
Proof. reflexivity. Qed.

Lemma prefix_spec sub s : String.prefix sub s = true ↔ ∃ post, s = sub +:+ post.
Proof.
  revert s. induction sub as [|c sub IH]; intros s.
  - split; [intros _; by exists s | by destruct s].
  - destruct s as [|d s]; simpl.
    + split; [done | by intros (post & ?)].
    + destruct (Ascii.ascii_dec c d) as [<- | Hne].
      * rewrite IH. split; intros (post & Hp); exists post;
          rewrite append_cons in *; congruence.
      * split; [done | intros (post & Hp); rewrite append_cons in Hp; congruence].
Qed.

Lemma includes_spec s sub : includes s sub = true ↔ ∃ pre post, s = pre +:+ sub +:+ post.
Proof.
  induction s as [|c s IH]; cbn [includes].
  - rewrite orb_false_r, prefix_spec. split.
    + intros (post & Hp). by exists EmptyString, post.
    + intros (pre & post & Hp). destruct pre; [by exists post | discriminate].
  - rewrite orb_true_iff, IH, prefix_spec. split.
    + intros [(post & Hp) | (pre & post & ->)].
      * by exists EmptyString, post.
      * by exists (String c pre), post.
    + intros (pre & post & Hp). destruct pre as [|d pre].
      * left. by exists post.
      * right. exists pre, post. rewrite append_cons in Hp. congruence.
Qed.

Lemma toLowerCase_app a b : toLowerCase (a +:+ b) = toLowerCase a +:+ toLowerCase b.
Proof.
  induction a as [|c a IH]; [done|].
  rewrite append_cons. simpl. by rewrite IH.
Qed.

Lemma toLowerCase_app_inv t a b :
  toLowerCase t = a +:+ b →
  ∃ t1 t2, t = t1 +:+ t2 ∧ toLowerCase t1 = a ∧ toLowerCase t2 = b.
Proof.
  revert t. induction a as [|c a IH]; intros t.
  - intros Ht. by exists EmptyString, t.
  - rewrite append_cons. destruct t as [|d t]; simpl; [done|].
    intros [= Hc (t1 & t2 & -> & <- & <-)%IH].
    exists (String d t1), t2. rewrite append_cons. simpl. by rewrite Hc.
Qed.

(** [toLowerCase] and [includes] together test for an occurrence with the
    letter case ignored. *)
Lemma includes_toLowerCase t kw :
  includes (toLowerCase t) (toLowerCase kw) = true ↔ occursIgnoringCase kw t.
Proof.
  rewrite includes_spec. unfold occursIgnoringCase. split.
  - intros (pre' & post' & H).
    apply toLowerCase_app_inv in H as (pre & rest & -> & _ & H).
    apply toLowerCase_app_inv in H as (mid & post & -> & Hm & _).
    by exists pre, mid, post.
  - intros (pre & mid & post & -> & Hm).
    exists (toLowerCase pre), (toLowerCase post).
    by rewrite !toLowerCase_app, Hm.
Qed.

Section Facts.

Context {W : Type}.
Variable svc : string -> string -> option bool -> W -> TaskResult * W.
Variable clock : nat -> Z.

Local Ltac body_cases H :=
  unfold body, navigate in H; repeat case_match; simplify_eq/=.

(** Every [break] of the loop body is preceded by a closing log entry. *)
Lemma body_break_terminal ns es ls (m : Machine W) ls' m' :
  body svc clock ns es ls m = (Break, ls', m') →
  ∃ e, last (processingLog (app m')) = Some e ∧ isTerminal e.
Proof.
  intros H. body_cases H.
  all: eexists; split; [apply last_snoc | ].
  all: first [ left; reflexivity | right; split; reflexivity ].
Qed.

(** An iteration that continues has marked a fresh id of the graph and
    moved to a node of the graph. *)
Lemma body_continue ns es ls (m : Machine W) ls' m' :
  body svc clock ns es ls m = (Continue, ls', m') →
  (n_id (currentNode ls) ∉ visitedNodes ls) ∧
  visitedNodes ls' = {[ n_id (currentNode ls) ]} ∪ visitedNodes ls ∧
  In (currentNode ls') ns.
Proof.
  intros H. body_cases H; repeat split; try done;
    match goal with
    | Hf : find _ ns = Some _ |- _ => apply find_some in Hf; tauto
    end.
Qed.

Lemma size_nodeIds ns : size (nodeIds ns) ≤ length ns.
Proof.
  unfold nodeIds. induction ns as [|n ns IH]; cbn [map length].
  - rewrite list_to_set_nil, size_empty. lia.
  - rewrite list_to_set_cons, size_union_alt, size_singleton.
    assert (size (list_to_set (map n_id ns) ∖ {[n_id n]} : gset string)
            ≤ size (list_to_set (map n_id ns) : gset string))
      by (apply subseteq_size; set_solver).
    lia.
Qed.

Lemma elem_of_nodeIds n ns : In n ns → n_id n ∈ nodeIds ns.
Proof.
  intros H. unfold nodeIds. apply elem_of_list_to_set, list_elem_of_In, in_map, H.
Qed.

(** The loop leaves by [break] as soon as it has more iterations at its
    disposal than the graph has unmarked ids. *)
Lemma loop_breaks ns es fuel : ∀ ls (m : Machine W),
  visitedNodes ls ⊆ nodeIds ns →
  In (currentNode ls) ns →
  length ns < size (visitedNodes ls) + fuel →
  ∃ ls' m', loop svc clock ns es fuel ls m = (LoopBreak, ls', m') ∧
            ∃ e, last (processingLog (app m')) = Some e ∧ isTerminal e.
Proof.
  induction fuel as [|fuel IH]; intros ls m Hsub Hin Hlt.
  - apply subseteq_size in Hsub. pose proof (size_nodeIds ns). lia.
  - simpl. destruct (body svc clock ns es ls m) as [[[] ls1] m1] eqn:Hb.
    + exists ls1, m1. split; [reflexivity|]. eapply body_break_terminal, Hb.
    + apply body_continue in Hb as (Hfresh & Hvis & Hin1).
      apply IH; [| done |].
      * rewrite Hvis. apply elem_of_nodeIds in Hin. set_solver.
      * rewrite Hvis, size_union, size_singleton by set_solver. lia.
Qed.

(** A loop that has left by [break] does the same with more iterations
    at its disposal. *)
Lemma loop_more_fuel ns es fuel k : ∀ ls (m : Machine W) ls' m',
  loop svc clock ns es fuel ls m = (LoopBreak, ls', m') →
  loop svc clock ns es (fuel + k) ls m = (LoopBreak, ls', m').
Proof.
  induction fuel as [|fuel IH]; intros ls m ls' m' Hl; simpl in *; [done|].
  destruct (body svc clock ns es ls m) as [[[] ls1] m1]; [done|]. by apply IH.
Qed.

(** Started on a node of the graph with nothing marked, the loop needs at
    most one iteration more than there are nodes: the bound of line 300
    leaves nine iterations unused. *)
Lemma loop_bound_slack ns es ls (m : Machine W) :
  visitedNodes ls = ∅ →
  In (currentNode ls) ns →
  loop svc clock ns es (length ns + 10) ls m = loop svc clock ns es (length ns + 1) ls m.
Proof.
  intros Hv Hin.
  destruct (loop_breaks ns es (length ns + 1) ls m) as (ls' & m' & Hl & _).
  - rewrite Hv. set_solver.
  - exact Hin.
  - rewrite Hv, size_empty. lia.
  - rewrite Hl. replace (length ns + 10) with ((length ns + 1) + 9) by lia.
    by apply loop_more_fuel.
Qed.

(** A rule for the loop: an invariant of the continuing iterations, and
    what holds at each of its two exits. *)
Lemma loop_rule ns es
    (P : Locals → Machine W → Prop) (Q : Exit → Locals → Machine W → Prop) :
  (∀ ls m ls' m', P ls m → body svc clock ns es ls m = (Continue, ls', m') → P ls' m') →
  (∀ ls m ls' m', P ls m → body svc clock ns es ls m = (Break, ls', m') → Q LoopBreak ls' m') →
  (∀ ls m, P ls m → Q LoopExhausted ls m) →
  ∀ fuel ls m ex ls' m',
    P ls m → loop svc clock ns es fuel ls m = (ex, ls', m') → Q ex ls' m'.
Proof.
  intros Hc Hb He. induction fuel as [|fuel IH]; intros ls m ex ls' m' HP Hl.
  - simpl in Hl. simplify_eq. by apply He.
  - simpl in Hl. destruct (body svc clock ns es ls m) as [[[] ls1] m1] eqn:Hbody.
    + simplify_eq. eapply Hb; eauto.
    + eapply IH; [|exact Hl]. eapply Hc; eauto.
Qed.

Lemma map_structure_updateNode id f l :
  (∀ n, structure (f n) = structure n) →
  map structure (updateNode id f l) = map structure l.
Proof.
  intros Hf. unfold updateNode. rewrite map_map. apply map_ext.
  intros n. by destruct (decide (n_id n = id)).
Qed.

Lemma sameGraph_refl s : sameGraph s s.
Proof. by repeat split. Qed.

Lemma sameGraph_trans s1 s2 s3 : sameGraph s1 s2 → sameGraph s2 s3 → sameGraph s1 s3.
Proof. unfold sameGraph. intros (?&?&?) (?&?&?). repeat split; congruence. Qed.

(** One iteration keeps the graph. *)
Lemma body_sameGraph ns es ls (m : Machine W) fl ls' m' :
  body svc clock ns es ls m = (fl, ls', m') → sameGraph (app m) (app m').
Proof.
  intros H. body_cases H; unfold sameGraph; simpl; repeat split;
    repeat (rewrite map_structure_updateNode by (intros; reflexivity)); reflexivity.
Qed.

Lemma loop_sameGraph ns es fuel ls (m : Machine W) ex ls' m' :
  loop svc clock ns es fuel ls m = (ex, ls', m') → sameGraph (app m) (app m').
Proof.
  intros Hl.
  eapply (loop_rule ns es (fun _ m0 => sameGraph (app m) (app m0))
            (fun _ _ m0 => sameGraph (app m) (app m0))); [ | | | | exact Hl].
  - intros ???? HP Hb. eapply sameGraph_trans, body_sameGraph; eauto.
  - intros ???? HP Hb. eapply sameGraph_trans, body_sameGraph; eauto.
  - done.
  - apply sameGraph_refl.
Qed.

Lemma resetForRun_sameGraph q (m : Machine W) :
  sameGraph (app m) (app (resetForRun clock q m)).
Proof.
  unfold sameGraph; simpl; repeat split.
  rewrite map_map. by apply map_ext.
Qed.

Lemma traverse_sameGraph (m : Machine W) ex ols m' :
  traverse svc clock m = (ex, ols, m') → sameGraph (app m) (app m').
Proof.
  unfold traverse. intros H.
  destruct (find _ (nodes (app m))) as [startNode|]; [|simplify_eq].
  - destruct (loop _ _ _ _ _ _ _) as [[ex1 ls1] m1] eqn:Hl. simplify_eq.
    apply loop_sameGraph in Hl.
    eapply sameGraph_trans; [apply (resetForRun_sameGraph (initialQuestion (app m)))|].
    eapply sameGraph_trans; [exact Hl|]. by repeat split.
  - eapply sameGraph_trans; [apply (resetForRun_sameGraph (initialQuestion (app m)))|].
    by repeat split.
Qed.

(** The traversal never leaves through the loop condition, and its log
    ends with a closing entry. *)
Lemma traverse_closes (m : Machine W) ex ols m' :
  traverse svc clock m = (ex, ols, m') →
  ex ≠ LoopExhausted ∧ ∃ e, last (processingLog (app m')) = Some e ∧ isTerminal e.
Proof.
  unfold traverse. intros H.
  destruct (find _ (nodes (app m))) as [startNode|] eqn:Hf.
  - apply find_some in Hf as [Hin _].
    destruct (loop_breaks (nodes (app m)) (edges (app m)) (length (nodes (app m)) + 10)
                {| currentNode := startNode; currentInput := initialQuestion (app m);
                   visitedNodes := ∅ |}
                (resetForRun clock (initialQuestion (app m)) m))
      as (ls1 & m1 & Hl & e & He & Ht).
    + cbn [visitedNodes]. set_solver.
    + exact Hin.
    + cbn [visitedNodes]. rewrite size_empty. lia.
    + rewrite Hl in H. simplify_eq. split; [done|]. by exists e.
  - simplify_eq. split; [done|]. eexists. split; [apply last_snoc|]. by left.
Qed.

(** One iteration leaves the final output alone, unless it is the iteration
    at END, which sets it to the payload and breaks. *)
Lemma body_finalOutput ns es ls (m : Machine W) fl ls' m' :
  body svc clock ns es ls m = (fl, ls', m') →
  (finalOutput (app m') = finalOutput (app m) ∧
   (fl = Break → ∃ e, last (processingLog (app m')) = Some e ∧ status e = error))
  ∨ (fl = Break ∧ n_type (currentNode ls') = END ∧
     currentInput ls' = currentInput ls ∧
     finalOutput (app m') = Some (currentInput ls) ∧
     last (processingLog (app m')) =
       Some {| timestamp := clock (clockReads m);
               message := "Reached END node. Final output set.";
               nodeId := Some (n_id (currentNode ls')); status := success;
               groundingMetadata := None |}).
Proof.
  intros H. body_cases H;
    first [ right; split_and!; try done; apply last_snoc
          | left; split; [reflexivity|]; intros Hfl;
            first [ discriminate Hfl
                  | eexists; split; [apply last_snoc | reflexivity] ] ].
Qed.

Lemma loop_exit ns es fuel ls (m : Machine W) ex ls' m' :
  loop svc clock ns es fuel ls m = (ex, ls', m') → ex = LoopBreak ∨ ex = LoopExhausted.
Proof.
  revert ls m. induction fuel as [|fuel IH]; intros ls m Hl; simpl in Hl.
  - simplify_eq. by right.
  - destruct (body svc clock ns es ls m) as [[[] ls1] m1].
    + simplify_eq. by left.
    + eapply IH, Hl.
Qed.

Lemma loop_finalOutput ns es fuel ls (m : Machine W) ex ls' m' :
  finalOutput (app m) = None →
  loop svc clock ns es fuel ls m = (ex, ls', m') →
  (finalOutput (app m') = None ∧
   (ex = LoopBreak → ∃ e, last (processingLog (app m')) = Some e ∧ status e = error))
  ∨ (ex = LoopBreak ∧ n_type (currentNode ls') = END ∧
     finalOutput (app m') = Some (currentInput ls') ∧
     ∃ e, last (processingLog (app m')) = Some e ∧ isCompleted e ∧
          nodeId e = Some (n_id (currentNode ls'))).
Proof.
  intros Hnone Hl.
  eapply (loop_rule ns es (fun _ m0 => finalOutput (app m0) = None)
            (fun ex0 l0 m0 =>
               (finalOutput (app m0) = None ∧
                (ex0 = LoopBreak →
                 ∃ e, last (processingLog (app m0)) = Some e ∧ status e = error))
               ∨ (ex0 = LoopBreak ∧ n_type (currentNode l0) = END ∧
                  finalOutput (app m0) = Some (currentInput l0) ∧
                  ∃ e, last (processingLog (app m0)) = Some e ∧ isCompleted e ∧
                       nodeId e = Some (n_id (currentNode l0)))));
    [ | | | exact Hnone | exact Hl].
  - intros l0 m0 l1 m1 HP Hb. cbv beta in *.
    apply body_finalOutput in Hb as [[Heq _]|[? _]]; congruence.
  - intros l0 m0 l1 m1 HP Hb. cbv beta in *.
    apply body_finalOutput in Hb as [[Heq He]|(_ & Ht & Hi & Hf & Hlast)].
    + left. split; [congruence|]. intros _. by apply He.
    + right. split_and!; [done | done | congruence |].
      eexists. split; [exact Hlast|]. by repeat split.
  - intros l0 m0 HP. left. split; [done|]. intros ?; discriminate.
Qed.

(** A traversal either ends on an error with no final output, or ends at
    END with the payload as final output. *)
Lemma traverse_finalOutput (m : Machine W) ex ols m' :
  traverse svc clock m = (ex, ols, m') →
  (finalOutput (app m') = None ∧
   ∃ e, last (processingLog (app m')) = Some e ∧ status e = error)
  ∨ (∃ ls, ols = Some ls ∧ ex = LoopBreak ∧ n_type (currentNode ls) = END ∧
           finalOutput (app m') = Some (currentInput ls) ∧
           ∃ e, last (processingLog (app m')) = Some e ∧ isCompleted e ∧
                nodeId e = Some (n_id (currentNode ls))).
Proof.
  intros H. pose proof (traverse_closes _ _ _ _ H) as [Hex _].
  unfold traverse in H.
  destruct (find _ (nodes (app m))) as [startNode|].
  - destruct (loop _ _ _ _ _ _ _) as [[ex1 ls1] m1] eqn:Hl. simplify_eq.
    pose proof (loop_exit _ _ _ _ _ _ _ _ Hl) as Hex1.
    apply loop_finalOutput in Hl; [|reflexivity].
    destruct Hl as [[Hn He]|(Hb & Ht & Hf & He)].
    + left. split; [exact Hn|]. apply He. by destruct Hex1.
    + right. exists ls1. by split_and!.
  - simplify_eq. left. split; [reflexivity|].
    eexists. split; [apply last_snoc | reflexivity].
Qed.

(** *** The iterations of the loop, case by case *)

(** Arriving at a marked node (lines 301-304). *)
Lemma body_marked ns es ls (m : Machine W) :
  n_id (currentNode ls) ∈ visitedNodes ls →
  body svc clock ns es ls m =
    (Break, ls,
     markNodeError (n_id (currentNode ls))
       (addLog clock ("Cycle detected at node " +:+ n_id (currentNode ls) +:+ ". Halting.")
          error (Some (n_id (currentNode ls))) None m)).
Proof. intros H. unfold body. by rewrite decide_True. Qed.

(** Arriving at an unmarked END node (lines 309-314). *)
Lemma body_END ns es ls (m : Machine W) :
  n_id (currentNode ls) ∉ visitedNodes ls →
  n_type (currentNode ls) = END →
  ∃ m', body svc clock ns es ls m = (Break, marked ls, m') ∧
        finalOutput (app m') = Some (currentInput ls) ∧
        processingLog (app m') =
          processingLog (app m) ++
          [ {| timestamp := clock (clockReads m);
               message := "Reached END node. Final output set.";
               nodeId := Some (n_id (currentNode ls)); status := success;
               groundingMetadata := None |} ] ∧
        world m' = world m ∧
        nodeErrors (app m') = nodeErrors (app m).
Proof.
  intros Hf Ht. unfold body. rewrite decide_False by done. rewrite Ht.
  eexists. split; [reflexivity|]. by split_and!.
Qed.

(** An agent whose call is rejected (lines 338-341). *)
Lemma body_rejected ns es ls (m : Machine W) msg w' :
  n_id (currentNode ls) ∉ visitedNodes ls →
  n_type (currentNode ls) = AGENT ∨ n_type (currentNode ls) = CONDITIONAL_AGENT →
  svc (n_description (currentNode ls)) (currentInput ls)
      (n_enableInternetSearch (currentNode ls)) (world m) = (Rejected msg, w') →
  ∃ m', body svc clock ns es ls m = (Break, marked ls, m') ∧
        processingLog (app m') =
          processingLog (app m) ++
          [ {| timestamp := clock (clockReads m);
               message := "Error processing agent '" +:+ n_description (currentNode ls)
                            +:+ "': " +:+ msg;
               nodeId := Some (n_id (currentNode ls)); status := error;
               groundingMetadata := None |} ] ∧
        world m' = w' ∧
        nodeErrors (app m') !! n_id (currentNode ls) = Some true ∧
        finalOutput (app m') = finalOutput (app m).
Proof.
  intros Hf Ht Hs. unfold body. rewrite decide_False by done.
  destruct Ht as [-> | ->]; simpl; rewrite Hs;
    (eexists; split; [reflexivity|]; split_and!; try done; apply lookup_insert_eq).
Qed.

(** *** Choosing the next edge *)

Lemma find_first {A} (f : A → bool) (l : list A) (x : A) :
  find f l = Some x ↔
  ∃ l1 l2, l = l1 ++ x :: l2 ∧ f x = true ∧ ∀ y, In y l1 → f y = false.
Proof.
  split.
  - induction l as [|a l IH]; simpl; [done|].
    destruct (f a) eqn:Hfa.
    + intros [= ->]. exists [], l. by split_and!.
    + intros (l1 & l2 & -> & Hx & Hl1)%IH.
      exists (a :: l1), l2. split_and!; [done | done |].
      intros y [<- | Hy]; auto.
  - intros (l1 & l2 & -> & Hx & Hl1).
    induction l1 as [|a l1 IH]; simpl.
    + by rewrite Hx.
    + rewrite (Hl1 a) by (by left). apply IH. intros y Hy. apply Hl1. by right.
Qed.

Lemma find_filter {A} (f g : A → bool) (l : list A) :
  find g (List.filter f l) = find (fun x => f x && g x) l.
Proof.
  induction l as [|a l IH]; simpl; [done|].
  destruct (f a); simpl; [|done]. by destruct (g a).
Qed.

Lemma keywordMatches_spec t e : keywordMatches t e = true ↔ matchesKeyword t e.
Proof.
  unfold keywordMatches, matchesKeyword. destruct (e_conditionKeyword e) as [kw|].
  - rewrite andb_true_iff, includes_toLowerCase. split.
    + intros [Hk Hi]. exists kw. split_and!; [done | by destruct kw | done].
    + intros (kw' & [= <-] & Hk & Hi). split; [by destruct kw | done].
  - split; [done | by intros (? & ? & _)].
Qed.

Lemma isOutgoing_spec id e : isOutgoing id e = true ↔ e_sourceId e = id.
Proof. unfold isOutgoing. apply bool_decide_eq_true. Qed.

(** What line 336 and line 343 find: the first edge leaving [id]. *)
Lemma find_outgoing id es e :
  find (isOutgoing id) es = Some e ↔ firstOutgoing (fun _ => True) id es e.
Proof.
  rewrite find_first. unfold firstOutgoing. split.
  - intros (l1 & l2 & -> & Hs & Hl). exists l1, l2.
    split_and!; [done | by apply isOutgoing_spec | done |].
    intros e' Hin Hs' _. apply Hl in Hin. apply isOutgoing_spec in Hs'. congruence.
  - intros (l1 & l2 & -> & Hs & _ & Hl). exists l1, l2.
    split_and!; [done | by apply isOutgoing_spec |].
    intros e' Hin. destruct (isOutgoing id e') eqn:Ho; [|done].
    apply isOutgoing_spec in Ho. by destruct (Hl e' Hin Ho).
Qed.

(** What lines 329-330 find: the first edge leaving [id] whose non-empty
    keyword occurs in the text, letter case ignored. *)
Lemma find_keyword id es t e :
  find (keywordMatches t) (List.filter (isOutgoing id) es) = Some e ↔
  firstOutgoing (matchesKeyword t) id es e.
Proof.
  rewrite find_filter, find_first. unfold firstOutgoing. split.
  - intros (l1 & l2 & -> & [Hs Hk]%andb_true_iff & Hl). exists l1, l2.
    split_and!; [done | by apply isOutgoing_spec | by apply keywordMatches_spec |].
    intros e' Hin Hs' Hk'. apply Hl in Hin.
    apply isOutgoing_spec in Hs'. apply keywordMatches_spec in Hk'.
    rewrite Hs', Hk' in Hin. discriminate.
  - intros (l1 & l2 & -> & Hs & Hk & Hl). exists l1, l2.
    split_and!; [done | |].
    + apply andb_true_iff. split; [by apply isOutgoing_spec | by apply keywordMatches_spec].
    + intros e' Hin. apply andb_false_iff.
      destruct (isOutgoing id e') eqn:Ho; [right | by left].
      apply isOutgoing_spec in Ho.
      destruct (keywordMatches t e') eqn:Hk'; [|done].
      apply keywordMatches_spec in Hk'. by destruct (Hl e' Hin Ho).
Qed.


(** A START node follows its first outgoing edge (lines 342-357). *)
Lemma body_START ns es ls (m : Machine W) e n :
  n_id (currentNode ls) ∉ visitedNodes ls →
  n_type (currentNode ls) = START →
  firstOutgoing (fun _ => True) (n_id (currentNode ls)) es e →
  find (fun n0 => bool_decide (n_id n0 = e_targetId e)) ns = Some n →
  ∃ m', body svc clock ns es ls m = (Continue, movedTo n (currentInput ls) ls, m') ∧
        processingLog (app m') = processingLog (app m) ∧
        nodeErrors (app m') = nodeErrors (app m) ∧
        world m' = world m.
Proof.
  intros Hf Ht He%find_outgoing Hn. unfold body, navigate.
  rewrite decide_False by done. rewrite Ht. cbn [currentNode]. rewrite He, Hn.
  eexists. split; [reflexivity|]. by split_and!.
Qed.

(** A plain AGENT whose call resolves follows its first outgoing edge
    (lines 319-326, 336, 346-357). *)
Lemma body_AGENT ns es ls (m : Machine W) t gm w' e n :
  n_id (currentNode ls) ∉ visitedNodes ls →
  n_type (currentNode ls) = AGENT →
  svc (n_description (currentNode ls)) (currentInput ls)
      (n_enableInternetSearch (currentNode ls)) (world m) = (Resolved t gm, w') →
  firstOutgoing (fun _ => True) (n_id (currentNode ls)) es e →
  find (fun n0 => bool_decide (n_id n0 = e_targetId e)) ns = Some n →
  ∃ m', body svc clock ns es ls m = (Continue, movedTo n t ls, m') ∧
        processingLog (app m') =
          processingLog (app m) ++ [outputEntry (clock (clockReads m)) (currentNode ls) t gm] ∧
        nodeErrors (app m') = nodeErrors (app m) ∧
        world m' = w'.
Proof.
  intros Hf Ht Hs He%find_outgoing Hn. unfold body, navigate.
  rewrite decide_False by done. rewrite Ht. cbn -[find]. rewrite Hs.
  rewrite decide_False by done. cbn -[find]. rewrite He, Hn.
  eexists. split; [reflexivity|]. unfold outputEntry. rewrite Ht. by split_and!.
Qed.



(** *** The clock only shows in the time stamps *)

Lemma untimed_eq s1 s2 :
  untimed s1 = untimed s2 ↔
  nodes s1 = nodes s2 ∧ edges s1 = edges s2 ∧ initialQuestion s1 = initialQuestion s2 ∧
  map eraseTimestamp (processingLog s1) = map eraseTimestamp (processingLog s2) ∧
  finalOutput s1 = finalOutput s2 ∧ isProcessing s1 = isProcessing s2 ∧
  processingError s1 = processingError s2 ∧
  currentProcessingNodeId s1 = currentProcessingNodeId s2 ∧
  nodeErrors s1 = nodeErrors s2.
Proof.
  destruct s1, s2. unfold untimed, setProcessingLog. simpl. split.
  - intros [=]. by split_and!.
  - intros (?&?&?&?&?&?&?&?&?). congruence.
Qed.

Local Ltac state_cbn :=
  cbn [finishRun resetForRun markNodeError addLog onApp setNodes setProcessingLog
       setFinalOutput setIsProcessing setProcessingError setCurrentProcessingNodeId
       setNodeErrors app world clockReads nodes edges initialQuestion processingLog
       finalOutput isProcessing processingError currentProcessingNodeId nodeErrors].

Local Ltac sameButTime_solve :=
  match goal with
  | H : sameButTime _ _ |- sameButTime _ _ =>
      destruct H as [H ?]; apply untimed_eq in H;
      destruct H as (?&?&?&?&?&?&?&?&?);
      split; [apply untimed_eq | state_cbn; congruence];
      state_cbn; rewrite ?map_app; unfold eraseTimestamp in *;
      cbn [map timestamp message nodeId status groundingMetadata];
      split_and!; congruence
  end.

Lemma sameButTime_refl (m : Machine W) : sameButTime m m.
Proof. by split. Qed.

Lemma navigate_sameButTime c1 c2 ns oe ls (m1 m2 : Machine W) :
  sameButTime m1 m2 →
  ∃ fl ls' m1' m2',
    navigate c1 ns oe ls m1 = (fl, ls', m1') ∧
    navigate c2 ns oe ls m2 = (fl, ls', m2') ∧
    sameButTime m1' m2'.
Proof.
  intros Hs. unfold navigate.
  destruct oe as [edge|]; [destruct (find _ ns) as [nextNode|]|];
    (do 4 eexists; split_and!; [reflexivity | reflexivity | ]);
    first [assumption | sameButTime_solve].
Qed.

(** One iteration under two clocks, from machines that agree but for time. *)
Lemma body_sameButTime c1 c2 ns es ls (m1 m2 : Machine W) :
  sameButTime m1 m2 →
  ∃ fl ls' m1' m2',
    body svc c1 ns es ls m1 = (fl, ls', m1') ∧
    body svc c2 ns es ls m2 = (fl, ls', m2') ∧
    sameButTime m1' m2'.
Proof.
  intros Hs. pose proof Hs as [_ Hw].
  unfold body. cbn [onApp world app]. rewrite <- Hw.
  destruct (decide (n_id (currentNode ls) ∈ visitedNodes ls)).
  { do 4 eexists; split_and!; [reflexivity | reflexivity | sameButTime_solve]. }
  destruct (n_type (currentNode ls)).
  - apply navigate_sameButTime. sameButTime_solve.
  - destruct (svc _ _ _ (world m1)) as [[t gm|msg] w'].
    + destruct (decide (AGENT = CONDITIONAL_AGENT)); [done|].
      apply navigate_sameButTime. sameButTime_solve.
    + do 4 eexists; split_and!; [reflexivity | reflexivity | sameButTime_solve].
  - do 4 eexists; split_and!; [reflexivity | reflexivity | sameButTime_solve].
  - destruct (svc _ _ _ (world m1)) as [[t gm|msg] w'].
    + destruct (decide (CONDITIONAL_AGENT = CONDITIONAL_AGENT)); [|done].
      destruct (find (keywordMatches t) _) as [edge|].
      * apply navigate_sameButTime. sameButTime_solve.
      * do 4 eexists; split_and!; [reflexivity | reflexivity | sameButTime_solve].
    + do 4 eexists; split_and!; [reflexivity | reflexivity | sameButTime_solve].
Qed.

Lemma loop_sameButTime c1 c2 ns es fuel : ∀ ls (m1 m2 : Machine W),
  sameButTime m1 m2 →
  ∃ ex ls' m1' m2',
    loop svc c1 ns es fuel ls m1 = (ex, ls', m1') ∧
    loop svc c2 ns es fuel ls m2 = (ex, ls', m2') ∧
    sameButTime m1' m2'.
Proof.
  induction fuel as [|fuel IH]; intros ls m1 m2 Hs; simpl.
  - by exists LoopExhausted, ls, m1, m2.
  - destruct (body_sameButTime c1 c2 ns es ls m1 m2 Hs)
      as (fl & ls1 & m1' & m2' & -> & -> & Hs').
    destruct fl; [by exists LoopBreak, ls1, m1', m2' | by apply IH].
Qed.

(** Two runs from the same state, with the same service, under two clocks. *)
Lemma handleProcessFlow_sameButTime c1 c2 (m : Machine W) :
  ∃ ex m1' m2',
    handleProcessFlow svc c1 m = (ex, m1') ∧
    handleProcessFlow svc c2 m = (ex, m2') ∧
    sameButTime m1' m2'.
Proof.
  pose proof (sameButTime_refl m) as Hm.
  unfold handleProcessFlow, traverse. destruct (truthy _).
  - destruct (find _ (nodes (app m))) as [startNode|].
    + destruct (loop_sameButTime c1 c2 (nodes (app m)) (edges (app m))
                  (length (nodes (app m)) + 10)
                  {| currentNode := startNode; currentInput := initialQuestion (app m);
                     visitedNodes := ∅ |}
                  (resetForRun c1 (initialQuestion (app m)) m)
                  (resetForRun c2 (initialQuestion (app m)) m))
        as (ex & ls' & m1' & m2' & -> & -> & Hs'); [sameButTime_solve|].
      do 3 eexists. split_and!; [reflexivity | reflexivity | sameButTime_solve].
    + do 3 eexists. split_and!; [reflexivity | reflexivity | sameButTime_solve].
  - do 3 eexists. split_and!; [reflexivity | reflexivity | sameButTime_solve].
Qed.

(** *** The order of arrivals *)

(** With [seen] the earlier arrivals, an arrival at a node already arrived
    at is the last one, and the loop ends there on the cycle entry. *)
Lemma arrivals_repeat ns es fuel : ∀ ls (m : Machine W) (seen l1 l2 : list string) x,
  visitedNodes ls = list_to_set seen →
  arrivals svc clock ns es fuel ls m = l1 ++ x :: l2 →
  x ∈ seen ++ l1 →
  l2 = [] ∧
  ∃ ls' m' e, loop svc clock ns es fuel ls m = (LoopBreak, ls', m') ∧
              last (processingLog (app m')) = Some e ∧ isCycleEntry x e ∧
              nodeErrors (app m') !! x = Some true.
Proof.
  induction fuel as [|fuel IH]; intros ls m seen l1 l2 x Hv Ha Hx; simpl in Ha.
  - by destruct l1.
  - destruct l1 as [|y l1]; simplify_eq/=.
    + rewrite app_nil_r in Hx.
      assert (n_id (currentNode ls) ∈ visitedNodes ls) as Hin
        by (rewrite Hv; by apply elem_of_list_to_set).
      rewrite body_marked in * by done. split; [done|].
      do 3 eexists. split; [reflexivity|]. split_and!.
      * apply last_snoc.
      * by repeat split.
      * apply lookup_insert_eq.
    + destruct (body svc clock ns es ls m) as [[[] ls1] m1] eqn:Hb.
      { by destruct l1. }
      pose proof (body_continue _ _ _ _ _ _ Hb) as (Hfresh & Hvis & _).
      apply (IH ls1 m1 (seen ++ [n_id (currentNode ls)]) l1 l2 x); [| done |].
      * rewrite Hvis, Hv, list_to_set_app_L. simpl. set_solver.
      * rewrite <- app_assoc. exact Hx.
Qed.

(** An iteration that starts at an unmarked node appends no cycle entry. *)
Lemma body_fresh_no_cycle ns es ls (m : Machine W) fl ls' m' :
  n_id (currentNode ls) ∉ visitedNodes ls →
  body svc clock ns es ls m = (fl, ls', m') →
  ∃ new, processingLog (app m') = processingLog (app m) ++ new ∧
         Forall (fun e => ∀ x, ¬ isCycleEntry x e) new.
Proof.
  intros Hf H. body_cases H; try done.
  all: first
    [ exists []; split; [by rewrite app_nil_r | constructor]
    | eexists; split; [rewrite <- ?app_assoc; reflexivity|];
      simpl; repeat constructor; intros x (Hst & Hn & Hm); simpl in *; discriminate ].
Qed.

(** When no node is arrived at twice, the loop appends no cycle entry. *)
Lemma arrivals_NoDup ns es fuel : ∀ ls (m : Machine W) (seen : list string) ex ls' m',
  visitedNodes ls = list_to_set seen →
  NoDup (seen ++ arrivals svc clock ns es fuel ls m) →
  loop svc clock ns es fuel ls m = (ex, ls', m') →
  ∃ new, processingLog (app m') = processingLog (app m) ++ new ∧
         Forall (fun e => ∀ x, ¬ isCycleEntry x e) new.
Proof.
  induction fuel as [|fuel IH]; intros ls m seen ex ls' m' Hv Hnd Hl; simpl in *.
  - simplify_eq. exists []. split; [by rewrite app_nil_r | constructor].
  - assert (n_id (currentNode ls) ∉ visitedNodes ls) as Hfresh.
    { rewrite Hv, elem_of_list_to_set. apply NoDup_app in Hnd as (_ & Hd & _).
      intros Hin. apply (Hd _ Hin). by left. }
    destruct (body svc clock ns es ls m) as [[[] ls1] m1] eqn:Hb.
    + simplify_eq. eapply body_fresh_no_cycle; eauto.
    + pose proof (body_continue _ _ _ _ _ _ Hb) as (_ & Hvis & _).
      destruct (body_fresh_no_cycle _ _ _ _ _ _ _ Hfresh Hb) as (new1 & Hlog1 & Hall1).
      destruct (IH ls1 m1 (seen ++ [n_id (currentNode ls)]) ex ls' m') as (new2 & Hlog2 & Hall2).
      * rewrite Hvis, Hv, list_to_set_app_L. simpl. set_solver.
      * by rewrite <- app_assoc.
      * exact Hl.
      * exists (new1 ++ new2). split.
        -- by rewrite Hlog2, Hlog1, app_assoc.
        -- by apply Forall_app.
Qed.

(** *** Arriving at END in a graph with unique ids *)

Lemma NoDup_ids_eq ns n1 n2 :
  NoDup (map n_id ns) → In n1 ns → In n2 ns → n_id n1 = n_id n2 → n1 = n2.
Proof.
  induction ns as [|a ns IH]; simpl; [done|].
  intros [Ha Hnd]%NoDup_cons [<-|H1] [<-|H2] Heq; try done.
  - destruct Ha. rewrite Heq. by apply list_elem_of_In, in_map.
  - destruct Ha. rewrite <- Heq. by apply list_elem_of_In, in_map.
  - by apply IH.
Qed.

(** In a graph with unique ids, a loop that starts with no END node marked
    and stops on a node of type END has set the final output to the
    payload and logged the END entry. *)
Lemma loop_stops_on_END ns es fuel ls (m : Machine W) ex ls' m' :
  NoDup (map n_id ns) →
  In (currentNode ls) ns →
  (∀ n, In n ns → n_id n ∈ visitedNodes ls → n_type n ≠ END) →
  loop svc clock ns es fuel ls m = (ex, ls', m') →
  ex = LoopBreak →
  n_type (currentNode ls') = END →
  finalOutput (app m') = Some (currentInput ls') ∧
  ∃ e, last (processingLog (app m')) = Some e ∧ isCompleted e ∧
       nodeId e = Some (n_id (currentNode ls')).
Proof.
  intros Hnd Hin Hvis Hl.
  eapply (loop_rule ns es
            (fun l0 _ => In (currentNode l0) ns ∧
                         ∀ n, In n ns → n_id n ∈ visitedNodes l0 → n_type n ≠ END)
            (fun ex0 l0 m0 =>
               ex0 = LoopBreak → n_type (currentNode l0) = END →
               finalOutput (app m0) = Some (currentInput l0) ∧
               ∃ e, last (processingLog (app m0)) = Some e ∧ isCompleted e ∧
                    nodeId e = Some (n_id (currentNode l0))));
    [ | | | split; [exact Hin | exact Hvis] | exact Hl].
  - intros l0 m0 l1 m1 [Hin0 Hv0] Hb.
    pose proof (body_continue _ _ _ _ _ _ Hb) as (Hfresh & Hvis1 & Hin1).
    split; [exact Hin1|]. intros n Hn. rewrite Hvis1, elem_of_union, elem_of_singleton.
    intros [Hid | Hold]; [|by apply Hv0].
    assert (n = currentNode l0) as -> by (by apply (NoDup_ids_eq ns)).
    intros Hend. body_cases Hb.
  - intros l0 m0 l1 m1 [Hin0 Hv0] Hb _ Hend.
    body_cases Hb; try congruence.
    + by destruct (Hv0 _ Hin0 ltac:(eassumption)).
    + split; [done|]. eexists. split; [apply last_snoc|]. by repeat split.
  - intros l0 m0 _ ?; discriminate.
Qed.

End Facts.

(** * The claims *)




(** C7, counterexample.  The same graph, input and service run under two
    clocks give two different logs. *)
Lemma two_runs_differ_in_timestamps :
  processingLog (app (snd (handleProcessFlow echoService tick (boot happyPath)))) ≠
  processingLog (app (snd (handleProcessFlow echoService tock (boot happyPath)))).
Proof. vm_compute. discriminate. Qed.

(** C7, as amended.  For a fixed state (graph and input) and a fixed
    service started in the same world, two runs leave the handler the same
    way and produce the same log up to the time stamps of the entries, the
    same final output, the same nodes, the same node error marks and the
    same service world, whatever the clocks. *)
Theorem runs_agree_up_to_timestamps {W : Type}
    (svc : string -> string -> option bool -> W -> TaskResult * W)
    (clock1 clock2 : nat -> Z) (m : Machine W) :
  let r1 := handleProcessFlow svc clock1 m in
  let r2 := handleProcessFlow svc clock2 m in
  fst r1 = fst r2 ∧
  map eraseTimestamp (processingLog (app (snd r1))) =
    map eraseTimestamp (processingLog (app (snd r2))) ∧
  finalOutput (app (snd r1)) = finalOutput (app (snd r2)) ∧
  nodes (app (snd r1)) = nodes (app (snd r2)) ∧
  nodeErrors (app (snd r1)) = nodeErrors (app (snd r2)) ∧
  world (snd r1) = world (snd r2).
Proof.
  destruct (handleProcessFlow_sameButTime svc clock1 clock2 m)
    as (ex & m1 & m2 & H1 & H2 & [Ha Hw]).
  simpl. rewrite H1, H2. simpl.
  apply untimed_eq in Ha as (?&?&?&?&?&?&?&?&?). by split_and!.
Qed.

(** C2, counterexample.  A graph with two START nodes is not rejected:
    the run starts at the first of them, reaches END and sets the final
    output, and the log holds no error entry. *)
Lemma two_START_nodes_are_accepted :
  let r := handleProcessFlow echoService tick (boot twoStarts) in
  length (List.filter (fun n => bool_decide (n_type n = START)) (nodes twoStarts)) = 2 ∧
  fst r = LoopBreak ∧
  finalOutput (app (snd r)) = Some "hi" ∧
  map status (processingLog (app (snd r))) = [info; success].
Proof. vm_compute. by split_and!. Qed.

(** C2, as amended.  A blank question stops the handler at once, whatever
    the graph: one error entry is appended and nothing else changes.  With
    a question that is not blank, a graph without START node stops the
    handler before any node is visited: the log is the start entry followed
    by the error entry, no call is made to the service, no node is current
    or marked in error, and there is no final output.  A graph with one or
    several START nodes is not rejected up front: the handler enters the
    loop. *)
Theorem fails_fast_on_blank_input_or_missing_START {W : Type}
    (svc : string -> string -> option bool -> W -> TaskResult * W)
    (clock : nat -> Z) (m : Machine W) :
  (truthy (trim (initialQuestion (app m))) = false →
   ∃ m', handleProcessFlow svc clock m = (EarlyReturn, m') ∧
         processingLog (app m') =
           processingLog (app m) ++
           [ {| timestamp := clock (clockReads m);
                message := "Initial question cannot be empty.";
                nodeId := None; status := error; groundingMetadata := None |} ] ∧
         world m' = world m ∧
         nodes (app m') = nodes (app m) ∧
         currentProcessingNodeId (app m') = currentProcessingNodeId (app m) ∧
         nodeErrors (app m') = nodeErrors (app m) ∧
         finalOutput (app m') = finalOutput (app m))
  ∧ (truthy (trim (initialQuestion (app m))) = true →
     (∀ n, In n (nodes (app m)) → n_type n ≠ START) →
     ∃ m', handleProcessFlow svc clock m = (EarlyReturn, m') ∧
           processingLog (app m') =
             [ {| timestamp := clock (clockReads m);
                  message := "Starting flow with question: " +:+ dq +:+
                               initialQuestion (app m) +:+ dq;
                  nodeId := None; status := info; groundingMetadata := None |};
               {| timestamp := clock (S (clockReads m));
                  message := "START node not found.";
                  nodeId := None; status := error; groundingMetadata := None |} ] ∧
           world m' = world m ∧
           currentProcessingNodeId (app m') = None ∧
           nodeErrors (app m') = ∅ ∧
           finalOutput (app m') = None ∧
           isProcessing (app m') = false)
  ∧ (truthy (trim (initialQuestion (app m))) = true →
     ∀ l1 s l2,
       nodes (app m) = l1 ++ s :: l2 →
       n_type s = START →
       (∀ n, In n l1 → n_type n ≠ START) →
       ∃ ls m2,
         loop svc clock (nodes (app m)) (edges (app m)) (length (nodes (app m)) + 10)
           {| currentNode := s; currentInput := initialQuestion (app m);
              visitedNodes := ∅ |}
           (resetForRun clock (initialQuestion (app m)) m) = (LoopBreak, ls, m2) ∧
         handleProcessFlow svc clock m = (LoopBreak, finishRun m2)).
Proof.
  unfold handleProcessFlow. split_and!.
  - intros ->. eexists. split; [reflexivity|]. by split_and!.
  - intros -> Hno. unfold traverse.
    destruct (find _ (nodes (app m))) as [s|] eqn:Hf.
    + apply find_some in Hf as [Hin Hs%bool_decide_eq_true]. by destruct (Hno s Hin).
    + eexists. split; [reflexivity|]. by split_and!.
  - intros -> l1 s l2 Hns Hs Hl1.
    assert (find (fun n => bool_decide (n_type n = START)) (nodes (app m)) = Some s) as Hf.
    { apply find_first. exists l1, l2. split_and!; [done | by apply bool_decide_eq_true |].
      intros n Hn. apply bool_decide_eq_false. by apply Hl1. }
    destruct (traverse svc clock m) as [[ex ols] m'] eqn:Ht.
    pose proof (traverse_closes _ _ _ _ _ _ Ht) as [Hex _].
    unfold traverse in Ht. rewrite Hf in Ht.
    destruct (loop _ _ _ _ _ _ _) as [[ex1 ls1] m1] eqn:Hl. simplify_eq.
    apply loop_exit in Hl as Hex1. destruct Hex1 as [-> | ->]; [|done].
    by exists ls1, m1.
Qed.

(** C2, witness: the graph without START node, and a blank question. *)
Lemma fails_fast_witness :
  (∃ m', handleProcessFlow echoService tick (boot noStart) = (EarlyReturn, m') ∧
         map message (processingLog (app m')) =
           [ "Starting flow with question: " +:+ dq +:+ "hi" +:+ dq;
             "START node not found." ] ∧
         world m' = [])
  ∧ (∃ m', handleProcessFlow echoService tick (boot (mkApp [] [] "   ")) = (EarlyReturn, m') ∧
           map message (processingLog (app m')) = ["Initial question cannot be empty."]).
Proof.
  split.
  - destruct (proj1 (proj2 (fails_fast_on_blank_input_or_missing_START
                 echoService tick (boot noStart))))
      as (m' & Hrun & Hlog & Hw & _).
    + reflexivity.
    + intros n [<- | [<- | []]]; discriminate.
    + exists m'. rewrite Hlog. by split_and!.
  - destruct (proj1 (fails_fast_on_blank_input_or_missing_START
                 echoService tick (boot (mkApp [] [] "   "))))
      as (m' & Hrun & Hlog & _).
    + reflexivity.
    + exists m'. rewrite Hlog. by split.
Defined.

(** C6, counterexample.  A START node with two outgoing edges is not
    rejected: the run follows the first edge, reaches the END node [x] and
    sets the final output, and the log holds no error entry. *)
Lemma two_outgoing_edges_are_accepted :
  let r := handleProcessFlow echoService tick (boot twoEdges) in
  length (List.filter (isOutgoing "s") (edges twoEdges)) = 2 ∧
  fst r = LoopBreak ∧
  finalOutput (app (snd r)) = Some "hi" ∧
  map status (processingLog (app (snd r))) = [info; success] ∧
  map nodeId (processingLog (app (snd r))) = [None; Some "x"].
Proof. vm_compute. by split_and!. Qed.

(** C6, as amended.  A START node, or a plain AGENT whose call resolves,
    follows the first edge of the edge list that leaves it, whatever other
    edges leave it: when the target of that edge exists the iteration
    continues at the target and logs no error. *)
Theorem non_conditional_node_follows_first_edge {W : Type}
    (svc : string -> string -> option bool -> W -> TaskResult * W)
    (clock : nat -> Z) ns es ls (m : Machine W) e n :
  n_id (currentNode ls) ∉ visitedNodes ls →
  firstOutgoing (fun _ => True) (n_id (currentNode ls)) es e →
  find (fun n0 => bool_decide (n_id n0 = e_targetId e)) ns = Some n →
  (n_type (currentNode ls) = START →
   ∃ m', body svc clock ns es ls m = (Continue, movedTo n (currentInput ls) ls, m') ∧
         processingLog (app m') = processingLog (app m) ∧
         nodeErrors (app m') = nodeErrors (app m))
  ∧ (n_type (currentNode ls) = AGENT →
     ∀ t gm w',
       svc (n_description (currentNode ls)) (currentInput ls)
           (n_enableInternetSearch (currentNode ls)) (world m) = (Resolved t gm, w') →
       ∃ m', body svc clock ns es ls m = (Continue, movedTo n t ls, m') ∧
             processingLog (app m') =
               processingLog (app m) ++
               [outputEntry (clock (clockReads m)) (currentNode ls) t gm] ∧
             nodeErrors (app m') = nodeErrors (app m)).
Proof.
  intros Hf He Hn. split.
  - intros Ht. destruct (body_START svc clock ns es ls m e n) as (m' & ? & ? & ? & ?); eauto.
  - intros Ht t gm w' Hs.
    destruct (body_AGENT svc clock ns es ls m t gm w' e n) as (m' & ? & ? & ? & ?); eauto.
Qed.

(** C6, witness: the START node of [twoEdges] moves to [x]. *)
Lemma follows_first_edge_witness :
  ∃ m', body echoService tick (nodes twoEdges) (edges twoEdges)
          {| currentNode := mkNode "s" START "Workflow Start"; currentInput := "hi";
             visitedNodes := ∅ |} (boot twoEdges)
        = (Continue,
           {| currentNode := mkNode "x" END "first"; currentInput := "hi";
              visitedNodes := {[ "s" ]} ∪ ∅ |}, m') ∧
        processingLog (app m') = [].
Proof.
  destruct (non_conditional_node_follows_first_edge echoService tick
              (nodes twoEdges) (edges twoEdges)
              {| currentNode := mkNode "s" START "Workflow Start";
                 currentInput := "hi"; visitedNodes := ∅ |}
              (boot twoEdges) (mkEdge "e1" "s" "x" EmptyString)
              (mkNode "x" END "first")) as [HS _].
  - apply not_elem_of_empty.
  - exists [], [mkEdge "e2" "s" "y" EmptyString].
    split_and!; [reflexivity | reflexivity | exact I | intros ? []].
  - reflexivity.
  - destruct HS as (m' & Hb & Hlog & _); [reflexivity|].
    exists m'. split; [exact Hb | exact Hlog].
Defined.



(** C5.  An iteration that starts at a node whose id is already marked
    logs [Cycle detected at node ...] for that node, marks the node in
    error and breaks the loop; the node is not processed: no call is made
    to the service and the nodes are untouched.  In a loop started with
    nothing marked, an arrival at a node arrived at before is the last
    arrival, and the loop ends there on the cycle entry of that node.  A
    loop in which no node is arrived at twice appends no cycle entry.  On
    the graph START -> A -> B -> A the arrivals are START, A, B, A, the
    run ends on the cycle entry of A, and A and B have been called once
    each. *)
Theorem second_arrival_is_a_cycle :
  (∀ (W : Type) (svc : string -> string -> option bool -> W -> TaskResult * W)
     (clock : nat -> Z) ns es ls (m : Machine W),
     n_id (currentNode ls) ∈ visitedNodes ls →
     ∃ m' e, body svc clock ns es ls m = (Break, ls, m') ∧
             processingLog (app m') = processingLog (app m) ++ [e] ∧
             isCycleEntry (n_id (currentNode ls)) e ∧
             nodeErrors (app m') !! n_id (currentNode ls) = Some true ∧
             world m' = world m ∧
             nodes (app m') = nodes (app m))
  ∧ (∀ (W : Type) (svc : string -> string -> option bool -> W -> TaskResult * W)
       (clock : nat -> Z) ns es fuel ls (m : Machine W) l1 x l2,
       visitedNodes ls = ∅ →
       arrivals svc clock ns es fuel ls m = l1 ++ x :: l2 →
       x ∈ l1 →
       l2 = [] ∧
       ∃ ls' m' e, loop svc clock ns es fuel ls m = (LoopBreak, ls', m') ∧
                   last (processingLog (app m')) = Some e ∧ isCycleEntry x e ∧
                   nodeErrors (app m') !! x = Some true)
  ∧ (∀ (W : Type) (svc : string -> string -> option bool -> W -> TaskResult * W)
       (clock : nat -> Z) ns es fuel ls (m : Machine W) ex ls' m',
       visitedNodes ls = ∅ →
       NoDup (arrivals svc clock ns es fuel ls m) →
       loop svc clock ns es fuel ls m = (ex, ls', m') →
       ∃ new, processingLog (app m') = processingLog (app m) ++ new ∧
              Forall (fun e => ∀ x, ¬ isCycleEntry x e) new)
  ∧ (let start := {| currentNode := mkNode "s" START "Workflow Start";
                     currentInput := "go"; visitedNodes := ∅ |} in
     let r := handleProcessFlow echoService tick (boot cyclic) in
     arrivals echoService tick (nodes cyclic) (edges cyclic) (length (nodes cyclic) + 10)
       start (resetForRun tick "go" (boot cyclic)) = ["s"; "a"; "b"; "a"] ∧
     fst r = LoopBreak ∧
     last (map message (processingLog (app (snd r)))) =
       Some "Cycle detected at node a. Halting." ∧
     last (map nodeId (processingLog (app (snd r)))) = Some (Some "a") ∧
     map status (processingLog (app (snd r))) = [info; success; success; error] ∧
     world (snd r) = [("A", "go", Some false); ("B", "go", Some false)] ∧
     finalOutput (app (snd r)) = None).
Proof.
  split_and!.
  - intros W svc clock ns es ls m Hin. do 2 eexists.
    rewrite body_marked by done. split; [reflexivity|].
    split_and!; [reflexivity | by repeat split | apply lookup_insert_eq | done | done].
  - intros W svc clock ns es fuel ls m l1 x l2 Hv Ha Hx.
    eapply (arrivals_repeat svc clock ns es fuel ls m [] l1 l2 x); [ | exact Ha | exact Hx].
    by rewrite Hv.
  - intros W svc clock ns es fuel ls m ex ls' m' Hv Hnd Hl.
    eapply (arrivals_NoDup svc clock ns es fuel ls m []); [ | exact Hnd | exact Hl].
    by rewrite Hv.
  - vm_compute. by split_and!.
Qed.

(** C5, witness: arriving at A of START -> A -> B -> A with A marked. *)
Lemma second_arrival_witness :
  ∃ m' e, body echoService tick (nodes cyclic) (edges cyclic)
            {| currentNode := mkNode "a" AGENT "A"; currentInput := "go";
               visitedNodes := {[ "a" ]} |} (boot cyclic)
          = (Break,
             {| currentNode := mkNode "a" AGENT "A"; currentInput := "go";
                visitedNodes := {[ "a" ]} |}, m') ∧
          processingLog (app m') = [e] ∧
          message e = "Cycle detected at node a. Halting." ∧
          world m' = [].
Proof.
  destruct (proj1 second_arrival_is_a_cycle Calls echoService tick
              (nodes cyclic) (edges cyclic)
              {| currentNode := mkNode "a" AGENT "A"; currentInput := "go";
                 visitedNodes := {[ "a" ]} |} (boot cyclic))
    as (m' & e & Hb & Hlog & (_ & _ & Hmsg) & _ & Hw & _).
  - cbn [currentNode visitedNodes mkNode n_id]. by apply elem_of_singleton.
  - exists m', e. split_and!; [exact Hb | exact Hlog | exact Hmsg | exact Hw].
Defined.

(** C8.  On the graph START -> AGENT -> END with the service that returns
    its input, the question [hello] reaches END: the final output is
    [hello], the log is the start entry, one output entry for the agent
    and the END entry, and the service has been called once.  In general
    an iteration that starts at an unmarked END node sets the final output
    to the payload, logs the END entry and breaks the loop without calling
    the service; and in a graph with unique node ids, a traversal that
    stops on a node of type END has the payload as final output and the
    END entry as last log entry. *)
Theorem reaching_END_completes_with_payload :
  (let r := handleProcessFlow echoService tick (boot happyPath) in
   fst r = LoopBreak ∧
   finalOutput (app (snd r)) = Some "hello" ∧
   length (List.filter isNodeOutput (processingLog (app (snd r)))) = 1 ∧
   processingLog (app (snd r)) =
     [ {| timestamp := 0%Z;
          message := "Starting flow with question: " +:+ dq +:+ "hello" +:+ dq;
          nodeId := None; status := info; groundingMetadata := None |};
       outputEntry 1%Z (mkNode "a" AGENT "uppercase") "hello" (Some []);
       {| timestamp := 2%Z; message := "Reached END node. Final output set.";
          nodeId := Some "e"; status := success; groundingMetadata := None |} ] ∧
   world (snd r) = [("uppercase", "hello", Some false)])
  ∧ (∀ (W : Type) (svc : string -> string -> option bool -> W -> TaskResult * W)
       (clock : nat -> Z) ns es ls (m : Machine W),
       n_id (currentNode ls) ∉ visitedNodes ls →
       n_type (currentNode ls) = END →
       ∃ m', body svc clock ns es ls m = (Break, marked ls, m') ∧
             finalOutput (app m') = Some (currentInput ls) ∧
             processingLog (app m') =
               processingLog (app m) ++
               [ {| timestamp := clock (clockReads m);
                    message := "Reached END node. Final output set.";
                    nodeId := Some (n_id (currentNode ls)); status := success;
                    groundingMetadata := None |} ] ∧
             world m' = world m ∧
             nodeErrors (app m') = nodeErrors (app m))
  ∧ (∀ (W : Type) (svc : string -> string -> option bool -> W -> TaskResult * W)
       (clock : nat -> Z) (m : Machine W) ex ls m',
       NoDup (map n_id (nodes (app m))) →
       traverse svc clock m = (ex, Some ls, m') →
       n_type (currentNode ls) = END →
       finalOutput (app m') = Some (currentInput ls) ∧
       ∃ e, last (processingLog (app m')) = Some e ∧ isCompleted e ∧
            nodeId e = Some (n_id (currentNode ls))).
Proof.
  split_and!.
  - vm_compute. by split_and!.
  - intros W svc clock ns es ls m Hf Ht. by apply body_END.
  - intros W svc clock m ex ls m' Hnd Htr Hend.
    pose proof (traverse_closes _ _ _ _ _ _ Htr) as [Hex _].
    unfold traverse in Htr.
    destruct (find _ (nodes (app m))) as [startNode|] eqn:Hfind; [|discriminate].
    destruct (loop _ _ _ _ _ _ _) as [[ex1 ls1] m1] eqn:Hl. simplify_eq.
    apply find_some in Hfind as [Hin _].
    pose proof (loop_exit _ _ _ _ _ _ _ _ _ _ Hl) as [-> | ->]; [|done].
    assert (∀ n, In n (nodes (app m)) → n_id n ∈ (∅ : gset string) → n_type n ≠ END) as Hv
      by (intros n _ Hn; by apply not_elem_of_empty in Hn).
    cbn [finishRun onApp app setCurrentProcessingNodeId setIsProcessing
         finalOutput processingLog].
    eapply loop_stops_on_END; [exact Hnd | | | exact Hl | reflexivity | exact Hend];
      [exact Hin | exact Hv].
Qed.

(** C8, witness: the END node of START -> AGENT -> END with payload
    [hello]. *)
Lemma reaching_END_witness :
  ∃ m', body echoService tick (nodes happyPath) (edges happyPath)
          {| currentNode := mkNode "e" END "Workflow End"; currentInput := "hello";
             visitedNodes := ∅ |} (boot happyPath)
        = (Break,
           marked {| currentNode := mkNode "e" END "Workflow End"; currentInput := "hello";
                     visitedNodes := ∅ |}, m') ∧
        finalOutput (app m') = Some "hello".
Proof.
  destruct (proj1 (proj2 reaching_END_completes_with_payload) Calls echoService tick
              (nodes happyPath) (edges happyPath)
              {| currentNode := mkNode "e" END "Workflow End"; currentInput := "hello";
                 visitedNodes := ∅ |} (boot happyPath))
    as (m' & Hb & Hf & _).
  - apply not_elem_of_empty.
  - reflexivity.
  - exists m'. split; [exact Hb | exact Hf].
Defined.

(** C9.  An AGENT or CONDITIONAL_AGENT whose call is rejected with the
    message [msg] stops the run at that node: the iteration appends one
    error entry for the node whose text ends with [msg], marks the node in
    error and breaks the loop, whatever number of iterations remains; the
    current node stays the same, the final output is untouched, and the
    world of the service is the one left by that single call.  On the
    graph START -> AGENT -> END with a service that always rejects, the
    run ends on the error entry of the agent after one call, with no final
    output. *)
Theorem rejected_call_stops_the_run :
  (∀ (W : Type) (svc : string -> string -> option bool -> W -> TaskResult * W)
     (clock : nat -> Z) ns es ls (m : Machine W) msg w',
     n_id (currentNode ls) ∉ visitedNodes ls →
     n_type (currentNode ls) = AGENT ∨ n_type (currentNode ls) = CONDITIONAL_AGENT →
     svc (n_description (currentNode ls)) (currentInput ls)
         (n_enableInternetSearch (currentNode ls)) (world m) = (Rejected msg, w') →
     ∃ m', body svc clock ns es ls m = (Break, marked ls, m') ∧
           (∀ fuel, loop svc clock ns es (S fuel) ls m = (LoopBreak, marked ls, m')) ∧
           processingLog (app m') =
             processingLog (app m) ++
             [ {| timestamp := clock (clockReads m);
                  message := "Error processing agent '" +:+ n_description (currentNode ls)
                               +:+ "': " +:+ msg;
                  nodeId := Some (n_id (currentNode ls)); status := error;
                  groundingMetadata := None |} ] ∧
           world m' = w' ∧
           nodeErrors (app m') !! n_id (currentNode ls) = Some true ∧
           finalOutput (app m') = finalOutput (app m))
  ∧ (let r := handleProcessFlow (failingService "Gemini API Error: quota") tick
                (boot happyPath) in
     fst r = LoopBreak ∧
     last (processingLog (app (snd r))) =
       Some {| timestamp := 1%Z;
               message := "Error processing agent 'uppercase': Gemini API Error: quota";
               nodeId := Some "a"; status := error; groundingMetadata := None |} ∧
     map status (processingLog (app (snd r))) = [info; error] ∧
     world (snd r) = [("uppercase", "hello", Some false)] ∧
     nodeErrors (app (snd r)) !! "a" = Some true ∧
     finalOutput (app (snd r)) = None).
Proof.
  split.
  - intros W svc clock ns es ls m msg w' Hf Ht Hs.
    destruct (body_rejected svc clock ns es ls m msg w' Hf Ht Hs)
      as (m' & Hb & Hlog & Hw & Herr & Hfin).
    exists m'. split_and!; try done.
    intros fuel. simpl. by rewrite Hb.
  - vm_compute. by split_and!.
Qed.

(** C9, witness: the agent of START -> AGENT -> END with a rejecting
    service. *)
Lemma rejected_call_witness :
  ∃ m', body (failingService "boom") tick (nodes happyPath) (edges happyPath)
          {| currentNode := mkNode "a" AGENT "uppercase"; currentInput := "hello";
             visitedNodes := {[ "s" ]} |} (boot happyPath)
        = (Break,
           marked {| currentNode := mkNode "a" AGENT "uppercase"; currentInput := "hello";
                     visitedNodes := {[ "s" ]} |}, m') ∧
        map message (processingLog (app m')) = ["Error processing agent 'uppercase': boom"] ∧
        world m' = [("uppercase", "hello", Some false)].
Proof.
  destruct (proj1 rejected_call_stops_the_run Calls (failingService "boom") tick
              (nodes happyPath) (edges happyPath)
              {| currentNode := mkNode "a" AGENT "uppercase"; currentInput := "hello";
                 visitedNodes := {[ "s" ]} |} (boot happyPath)
              "boom" [("uppercase", "hello", Some false)])
    as (m' & Hb & _ & Hlog & Hw & _).
  - cbn [currentNode visitedNodes mkNode n_id]. rewrite elem_of_singleton. discriminate.
  - left. reflexivity.
  - reflexivity.
  - exists m'. rewrite Hlog. split_and!; [exact Hb | reflexivity | exact Hw].
Defined.

(** C10.  A run on a question that is not blank ends in one of two ways:
    either its log ends with an error entry and the final output is unset,
    or the traversal stopped on an END node, the log ends with the END
    entry of that node, and the final output is the payload carried into
    it.  Within the loop an iteration leaves the final output as it is,
    unless it is the iteration at END, which sets it to the payload and
    breaks the loop: the final output is set at most once, at END. *)
Theorem final_output_set_only_at_END :
  (∀ (W : Type) (svc : string -> string -> option bool -> W -> TaskResult * W)
     (clock : nat -> Z) (m : Machine W) ex m',
     truthy (trim (initialQuestion (app m))) = true →
     handleProcessFlow svc clock m = (ex, m') →
     (finalOutput (app m') = None ∧
      ∃ e, last (processingLog (app m')) = Some e ∧ status e = error)
     ∨ (∃ ls, traverse svc clock m = (LoopBreak, Some ls, m') ∧
              n_type (currentNode ls) = END ∧
              finalOutput (app m') = Some (currentInput ls) ∧
              ∃ e, last (processingLog (app m')) = Some e ∧ isCompleted e ∧
                   nodeId e = Some (n_id (currentNode ls))))
  ∧ (∀ (W : Type) (svc : string -> string -> option bool -> W -> TaskResult * W)
       (clock : nat -> Z) ns es ls (m : Machine W) fl ls' m',
       body svc clock ns es ls m = (fl, ls', m') →
       finalOutput (app m') = finalOutput (app m)
       ∨ (fl = Break ∧ n_type (currentNode ls) = END ∧
          finalOutput (app m') = Some (currentInput ls))).
Proof.
  split.
  - intros W svc clock m ex m' Hq Hrun. unfold handleProcessFlow in Hrun.
    rewrite Hq in Hrun.
    destruct (traverse svc clock m) as [[ex1 ols] m1] eqn:Htr. simplify_eq.
    destruct (traverse_finalOutput _ _ _ _ _ _ Htr)
      as [Hl | (ls & -> & -> & Ht & Hf & He)]; [by left|].
    right. exists ls. by split_and!.
  - intros W svc clock ns es ls m fl ls' m' Hb.
    destruct (body_finalOutput _ _ _ _ _ _ _ _ _ Hb)
      as [[Heq _] | (Hfl & Ht & _ & Hf & _)]; [by left|].
    right. split_and!; [done | | done].
    unfold body in Hb. repeat case_match; simplify_eq/=; try done;
      unfold navigate in *; repeat case_match; simplify_eq/=; congruence.
Qed.

(** C10, witness: the run of START -> AGENT -> END that is rejected by the
    service ends with no final output; the one that is echoed ends with
    the payload. *)
Lemma final_output_witness :
  (finalOutput (app (snd (handleProcessFlow (failingService "boom") tick (boot happyPath))))
     = None)
  ∧ (finalOutput (app (snd (handleProcessFlow echoService tick (boot happyPath))))
       = Some "hello").
Proof.
  split.
  - destruct (proj1 final_output_set_only_at_END Calls (failingService "boom") tick
                (boot happyPath) _ _ eq_refl eq_refl)
      as [[Hn _] | (ls & _ & _ & Hf & _)]; [exact Hn | reflexivity].
  - destruct (proj1 final_output_set_only_at_END Calls echoService tick
                (boot happyPath) _ _ eq_refl eq_refl)
      as [[Hn _] | (ls & _ & _ & Hf & _)]; reflexivity.
Defined.

(** * Further properties of the engine *)

Section MoreFacts.

Context {W : Type}.
Variable svc : string -> string -> option bool -> W -> TaskResult * W.
Variable clock : nat -> Z.

Local Ltac body_split H :=
  unfold body, navigate in H; repeat case_match; simplify_eq/=.

Lemma find_outgoing_None id es :
  find (isOutgoing id) es = None ↔ ∀ e, In e es → e_sourceId e ≠ id.
Proof.
  split.
  - intros Hn e Hin Hs. pose proof (find_none _ _ Hn e Hin) as Hf.
    apply isOutgoing_spec in Hs. congruence.
  - intros Hall. destruct (find _ es) as [e|] eqn:Hf; [|done].
    apply find_some in Hf as [Hin Hs%isOutgoing_spec]. by destruct (Hall e Hin).
Qed.

(** The log only grows during an iteration, by at most two entries, each
    stamped with the next reading of the clock. *)
Lemma body_log ns es ls (m : Machine W) fl ls' m' :
  body svc clock ns es ls m = (fl, ls', m') →
  ∃ new, processingLog (app m') = processingLog (app m) ++ new ∧
         clockReads m' = clockReads m + length new ∧
         map timestamp new = map clock (seq (clockReads m) (length new)) ∧
         Forall (fun e => nodeId e = Some (n_id (currentNode ls))) new.
Proof.
  intros H. body_split H.
  all: first
    [ exists []; split_and!; [by rewrite app_nil_r | simpl; lia | done | constructor]
    | eexists; split; [rewrite <- ?app_assoc; reflexivity|];
      simpl; split_and!; [lia | done | by repeat constructor] ].
Qed.

Lemma loop_log ns es fuel : ∀ ls (m : Machine W) ex ls' m',
  loop svc clock ns es fuel ls m = (ex, ls', m') →
  ∃ new, processingLog (app m') = processingLog (app m) ++ new ∧
         clockReads m' = clockReads m + length new ∧
         map timestamp new = map clock (seq (clockReads m) (length new)) ∧
         Forall (fun e => ∃ id, nodeId e = Some id) new.
Proof.
  induction fuel as [|fuel IH]; intros ls m ex ls' m' Hl; simpl in Hl.
  - simplify_eq. exists []. split_and!; [by rewrite app_nil_r | simpl; lia | done | constructor].
  - destruct (body svc clock ns es ls m) as [[fl ls1] m1] eqn:Hb.
    destruct (body_log _ _ _ _ _ _ _ Hb) as (new1 & Hlog1 & Hk1 & Hts1 & Hid1).
    assert (Forall (fun e => ∃ id, nodeId e = Some id) new1) as Hid1'
      by (clear -Hid1; induction Hid1; constructor; eauto).
    destruct fl.
    + simplify_eq. by exists new1.
    + destruct (IH _ _ _ _ _ Hl) as (new2 & Hlog2 & Hk2 & Hts2 & Hid2).
      exists (new1 ++ new2). split_and!.
      * by rewrite Hlog2, Hlog1, app_assoc.
      * rewrite Hk2, Hk1, length_app. lia.
      * rewrite length_app, seq_app, !map_app, Hts1. f_equal.
        rewrite Hts2, Hk1. done.
      * by apply Forall_app.
Qed.

(** *** Dead ends and missing targets *)

(** A START node without outgoing edge (lines 342-351). *)
Lemma body_START_dead_end ns es ls (m : Machine W) :
  n_id (currentNode ls) ∉ visitedNodes ls →
  n_type (currentNode ls) = START →
  (∀ e, In e es → e_sourceId e ≠ n_id (currentNode ls)) →
  ∃ m', body svc clock ns es ls m = (Break, marked ls, m') ∧
        processingLog (app m') =
          processingLog (app m) ++
          [ {| timestamp := clock (clockReads m);
               message := "Node '" +:+ n_description (currentNode ls) +:+
                            "' has no outgoing connection. Flow halted.";
               nodeId := Some (n_id (currentNode ls)); status := error;
               groundingMetadata := None |} ] ∧
        nodeErrors (app m') !! n_id (currentNode ls) = Some true ∧
        finalOutput (app m') = finalOutput (app m) ∧
        world m' = world m.
Proof.
  intros Hf Ht He%find_outgoing_None. unfold body, navigate.
  rewrite decide_False by done. rewrite Ht. cbn [currentNode]. rewrite He.
  eexists. split; [reflexivity|]. split_and!; try done. apply lookup_insert_eq.
Qed.

(** A plain AGENT without outgoing edge, after its call has resolved
    (lines 319-326, 336, 347-351). *)
Lemma body_AGENT_dead_end ns es ls (m : Machine W) t gm w' :
  n_id (currentNode ls) ∉ visitedNodes ls →
  n_type (currentNode ls) = AGENT →
  svc (n_description (currentNode ls)) (currentInput ls)
      (n_enableInternetSearch (currentNode ls)) (world m) = (Resolved t gm, w') →
  (∀ e, In e es → e_sourceId e ≠ n_id (currentNode ls)) →
  ∃ m', body svc clock ns es ls m = (Break, movedTo (currentNode ls) t ls, m') ∧
        processingLog (app m') =
          processingLog (app m) ++
          [ outputEntry (clock (clockReads m)) (currentNode ls) t gm;
            {| timestamp := clock (S (clockReads m));
               message := "Node '" +:+ n_description (currentNode ls) +:+
                            "' has no outgoing connection. Flow halted.";
               nodeId := Some (n_id (currentNode ls)); status := error;
               groundingMetadata := None |} ] ∧
        nodeErrors (app m') !! n_id (currentNode ls) = Some true ∧
        finalOutput (app m') = finalOutput (app m) ∧
        world m' = w'.
Proof.
  intros Hf Ht Hs He%find_outgoing_None. unfold body, navigate.
  rewrite decide_False by done. rewrite Ht. cbn -[find]. rewrite Hs.
  rewrite decide_False by done. cbn -[find]. rewrite He.
  eexists. split; [reflexivity|]. unfold outputEntry. rewrite Ht. cbn.
  split_and!; try done.
  - by rewrite <- app_assoc.
  - apply lookup_insert_eq.
Qed.

(** Following an edge whose target is not a node of the graph
    (lines 352-356). *)
Lemma navigate_missing_target ns e ls (m : Machine W) :
  (∀ n, In n ns → n_id n ≠ e_targetId e) →
  ∃ m', navigate clock ns (Some e) ls m = (Break, ls, m') ∧
        processingLog (app m') =
          processingLog (app m) ++
          [ {| timestamp := clock (clockReads m);
               message := "Target node not found. Flow corrupted.";
               nodeId := Some (n_id (currentNode ls)); status := error;
               groundingMetadata := None |} ] ∧
        nodeErrors (app m') !! n_id (currentNode ls) = Some true ∧
        finalOutput (app m') = finalOutput (app m) ∧
        world m' = world m.
Proof.
  intros Hno. unfold navigate.
  destruct (find _ ns) as [n|] eqn:Hf.
  - apply find_some in Hf as [Hin Hid%bool_decide_eq_true]. by destruct (Hno n Hin).
  - eexists. split; [reflexivity|]. split_and!; try done. apply lookup_insert_eq.
Qed.

(** When every edge leads to a node of the graph, an iteration appends no
    missing-target entry. *)
Lemma body_no_corrupt ns es ls (m : Machine W) fl ls' m' :
  targetsExist ns es →
  body svc clock ns es ls m = (fl, ls', m') →
  Forall (fun e => ¬ isCorruptEntry e) (processingLog (app m)) →
  Forall (fun e => ¬ isCorruptEntry e) (processingLog (app m')).
Proof.
  intros Hok H Hold.
  assert (∀ e, In e es → find (fun n => bool_decide (n_id n = e_targetId e)) ns ≠ None) as Hfind.
  { intros e Hin Hn. destruct (Hok e Hin) as (n & Hn1 & Hn2).
    pose proof (find_none _ _ Hn n Hn1) as Hf. simpl in Hf.
    by apply bool_decide_eq_false in Hf. }
  body_split H; try done.
  all: try (repeat (apply Forall_app; split; [|by repeat constructor]); done).
  all: exfalso;
    repeat match goal with
    | Hf : find (isOutgoing _) _ = Some _ |- _ => apply find_some in Hf as [Hf _]
    | Hf : find (keywordMatches _) (List.filter _ _) = Some _ |- _ =>
        apply find_some in Hf as [Hf%filter_In _]; destruct Hf as [Hf _]
    end;
    match goal with
    | Hin : In ?e _, Hn : find _ _ = None |- _ => by destruct (Hfind e Hin)
    end.
Qed.

Lemma loop_no_corrupt ns es fuel ls (m : Machine W) ex ls' m' :
  targetsExist ns es →
  loop svc clock ns es fuel ls m = (ex, ls', m') →
  Forall (fun e => ¬ isCorruptEntry e) (processingLog (app m)) →
  Forall (fun e => ¬ isCorruptEntry e) (processingLog (app m')).
Proof.
  intros Hok Hl Hold.
  eapply (loop_rule svc clock ns es
            (fun _ m0 => Forall (fun e => ¬ isCorruptEntry e) (processingLog (app m0)))
            (fun _ _ m0 => Forall (fun e => ¬ isCorruptEntry e) (processingLog (app m0))));
    [ | | | exact Hold | exact Hl].
  - intros l0 m0 l1 m1 HP Hb. eapply body_no_corrupt; eauto.
  - intros l0 m0 l1 m1 HP Hb. eapply body_no_corrupt; eauto.
  - done.
Qed.

(** *** The node error marks *)

(** An iteration that continues leaves the error marks alone; one that
    breaks either is the iteration at END, which leaves them alone too, or
    marks the current node and closes the log with an error entry for
    it. *)
Lemma body_nodeErrors ns es ls (m : Machine W) fl ls' m' :
  body svc clock ns es ls m = (fl, ls', m') →
  (nodeErrors (app m') = nodeErrors (app m) ∧
   (fl = Break → ∃ e, last (processingLog (app m')) = Some e ∧ isCompleted e))
  ∨ (fl = Break ∧
     nodeErrors (app m') = <[ n_id (currentNode ls) := true ]> (nodeErrors (app m)) ∧
     ∃ e, last (processingLog (app m')) = Some e ∧ status e = error ∧
          nodeId e = Some (n_id (currentNode ls))).
Proof.
  intros H. body_split H.
  all: first
    [ left; split; [reflexivity|]; intros Hfl;
      first [ discriminate Hfl
            | eexists; split; [apply last_snoc | by split] ]
    | right; split_and!; [reflexivity | reflexivity |];
      eexists; split; [apply last_snoc | by split] ].
Qed.

Lemma loop_nodeErrors ns es fuel ls (m : Machine W) ex ls' m' :
  nodeErrors (app m) = ∅ →
  loop svc clock ns es fuel ls m = (ex, ls', m') →
  (nodeErrors (app m') = ∅ ∧
   (ex = LoopBreak → ∃ e, last (processingLog (app m')) = Some e ∧ isCompleted e))
  ∨ (∃ id e, nodeErrors (app m') = {[ id := true ]} ∧
             last (processingLog (app m')) = Some e ∧ status e = error ∧
             nodeId e = Some id).
Proof.
  intros Hempty Hl.
  eapply (loop_rule svc clock ns es (fun _ m0 => nodeErrors (app m0) = ∅)
            (fun ex0 _ m0 =>
               (nodeErrors (app m0) = ∅ ∧
                (ex0 = LoopBreak →
                 ∃ e, last (processingLog (app m0)) = Some e ∧ isCompleted e))
               ∨ (∃ id e, nodeErrors (app m0) = {[ id := true ]} ∧
                          last (processingLog (app m0)) = Some e ∧ status e = error ∧
                          nodeId e = Some id)));
    [ | | | exact Hempty | exact Hl].
  - intros l0 m0 l1 m1 HP Hb. cbv beta in *.
    apply body_nodeErrors in Hb as [[Heq _] | [? _]]; congruence.
  - intros l0 m0 l1 m1 HP Hb. cbv beta in *.
    apply body_nodeErrors in Hb as [[Heq He] | (_ & Hins & e & Hlast & Hst & Hid)].
    + left. split; [congruence|]. intros _. by apply He.
    + right. exists (n_id (currentNode l0)), e. rewrite Hins, HP. by split_and!.
  - intros l0 m0 HP. left. split; [done|]. intros ?; discriminate.
Qed.

(** *** The calls to the service *)

(** Between the calls counted and the agent nodes marked. *)
Lemma body_counted ns es ls (m : Machine (W * nat)) fl ls' m' :
  In (currentNode ls) ns →
  body (counted svc) clock ns es ls m = (fl, ls', m') →
  (snd (world m') = snd (world m) ∧ visitedNodes ls ⊆ visitedNodes ls')
  ∨ (snd (world m') = S (snd (world m)) ∧
     isAgent (currentNode ls) = true ∧
     (n_id (currentNode ls) ∉ visitedNodes ls) ∧
     visitedNodes ls' = {[ n_id (currentNode ls) ]} ∪ visitedNodes ls).
Proof.
  intros Hin H. unfold body, navigate, counted in H.
  repeat case_match; simplify_eq/=.
  all: first
    [ left; split; [reflexivity | set_solver]
    | right; split_and!; [reflexivity | | done | reflexivity];
      unfold isAgent;
      match goal with Ht : n_type _ = _ |- _ => rewrite Ht end; reflexivity ].
Qed.

Lemma loop_counted ns es fuel (n0 : nat) : ∀ ls (m : Machine (W * nat)) ex ls' m',
  In (currentNode ls) ns →
  snd (world m) ≤ n0 + size (visitedNodes ls ∩ nodeIds (List.filter isAgent ns)) →
  loop (counted svc) clock ns es fuel ls m = (ex, ls', m') →
  snd (world m') ≤ n0 + size (visitedNodes ls' ∩ nodeIds (List.filter isAgent ns)).
Proof.
  induction fuel as [|fuel IH]; intros ls m ex ls' m' Hin Hle Hl; simpl in Hl.
  - by simplify_eq.
  - destruct (body (counted svc) clock ns es ls m) as [[fl ls1] m1] eqn:Hb.
    assert (snd (world m1) ≤
            n0 + size (visitedNodes ls1 ∩ nodeIds (List.filter isAgent ns))) as Hle1.
    { destruct (body_counted _ _ _ _ _ _ _ Hin Hb)
        as [[Hc Hsub] | (Hc & Hag & Hfresh & Hvis)].
      - rewrite Hc. etrans; [exact Hle|]. apply Nat.add_le_mono_l, subseteq_size.
        set_solver.
      - rewrite Hc, Hvis.
        assert (n_id (currentNode ls) ∈ nodeIds (List.filter isAgent ns)) as Hid.
        { apply elem_of_nodeIds, filter_In. by split. }
        replace (({[n_id (currentNode ls)]} ∪ visitedNodes ls)
                 ∩ nodeIds (List.filter isAgent ns))
          with ({[n_id (currentNode ls)]}
                ∪ (visitedNodes ls ∩ nodeIds (List.filter isAgent ns)))
          by set_solver.
        rewrite size_union, size_singleton by set_solver. lia. }
    destruct fl.
    + by simplify_eq.
    + apply body_continue in Hb as (_ & _ & Hin1). eapply IH; eauto.
Qed.

(** *** What a run reads of the state it starts from *)

Lemma structure_fields n1 n2 :
  structure n1 = structure n2 →
  n_id n1 = n_id n2 ∧ n_type n1 = n_type n2 ∧ n_description n1 = n_description n2 ∧
  n_enableInternetSearch n1 = n_enableInternetSearch n2.
Proof. unfold structure. intros [=]. by split_and!. Qed.

Lemma clearRunFields_structure n1 n2 :
  structure n1 = structure n2 → clearRunFields n1 = clearRunFields n2.
Proof. destruct n1, n2. unfold structure. simpl. intros [=]. by subst. Qed.

Lemma map_clearRunFields_structure ns1 ns2 :
  map structure ns1 = map structure ns2 → map clearRunFields ns1 = map clearRunFields ns2.
Proof.
  revert ns2. induction ns1 as [|a ns1 IH]; intros [|b ns2]; cbn [map]; try done.
  intros H. pose proof (f_equal (hd (structure a)) H) as Hab.
  pose proof (f_equal (@tl _) H) as Hrest. cbn [hd tl] in Hab, Hrest.
  rewrite (clearRunFields_structure a b Hab), (IH ns2 Hrest). reflexivity.
Qed.

Lemma find_structure (p : AgentNode → bool) ns1 ns2 :
  (∀ a b, structure a = structure b → p a = p b) →
  map structure ns1 = map structure ns2 →
  match find p ns1, find p ns2 with
  | Some a, Some b => structure a = structure b
  | None, None => True
  | _, _ => False
  end.
Proof.
  intros Hp. revert ns2. induction ns1 as [|a ns1 IH]; intros [|b ns2]; simpl; try done.
  intros H. pose proof (f_equal (hd (structure a)) H) as Hab.
  pose proof (f_equal (@tl _) H) as Hrest. cbn [hd tl] in Hab, Hrest. rewrite (Hp a b Hab).
  destruct (p b); [exact Hab | by apply IH].
Qed.

Lemma navigate_sameLocals ns1 ns2 oe l1 l2 (m : Machine W) :
  map structure ns1 = map structure ns2 →
  sameLocals l1 l2 →
  ∃ fl l1' l2' m',
    navigate clock ns1 oe l1 m = (fl, l1', m') ∧
    navigate clock ns2 oe l2 m = (fl, l2', m') ∧
    sameLocals l1' l2'.
Proof.
  intros Hns Hl. pose proof Hl as (Hs & Hi & Hv).
  apply structure_fields in Hs as (Hid & Hty & Hde & Hse).
  unfold navigate. rewrite Hid, Hde.
  destruct oe as [edge|].
  - pose proof (find_structure (fun n => bool_decide (n_id n = e_targetId edge)) ns1 ns2)
      as Hfind.
    destruct (find _ ns1) as [a|], (find _ ns2) as [b|];
      try (exfalso; apply Hfind; [|exact Hns]; intros ? ? (-> & _)%structure_fields; done).
    + do 4 eexists. split_and!; [reflexivity | reflexivity |].
      split_and!; [|exact Hi | exact Hv]. cbn [currentNode].
      apply Hfind; [|exact Hns]. by intros ? ? (-> & _)%structure_fields.
    + do 4 eexists. by split_and!.
  - do 4 eexists. by split_and!.
Qed.

(** One iteration from two locals that agree up to display fields, over
    two node lists that agree up to display fields. *)
Lemma body_sameLocals ns1 ns2 es l1 l2 (m : Machine W) :
  map structure ns1 = map structure ns2 →
  sameLocals l1 l2 →
  ∃ fl l1' l2' m',
    body svc clock ns1 es l1 m = (fl, l1', m') ∧
    body svc clock ns2 es l2 m = (fl, l2', m') ∧
    sameLocals l1' l2'.
Proof.
  intros Hns Hl. pose proof Hl as (Hs & Hi & Hv).
  pose proof (structure_fields _ _ Hs) as (Hid & Hty & Hde & Hse).
  unfold body. rewrite Hid, Hty, Hde, Hse, Hi, Hv.
  destruct (decide (n_id (currentNode l2) ∈ visitedNodes l2)).
  { do 4 eexists. by split_and!. }
  destruct (n_type (currentNode l2)).
  - apply navigate_sameLocals; [exact Hns | by split_and!].
  - destruct (svc _ _ _ _) as [[t gm|msg] w'].
    + destruct (decide (AGENT = CONDITIONAL_AGENT)); [done|].
      apply navigate_sameLocals; [exact Hns | by split_and!].
    + do 4 eexists. by split_and!.
  - do 4 eexists. by split_and!.
  - destruct (svc _ _ _ _) as [[t gm|msg] w'].
    + destruct (decide (CONDITIONAL_AGENT = CONDITIONAL_AGENT)); [|done].
      destruct (find (keywordMatches t) _) as [edge|].
      * apply navigate_sameLocals; [exact Hns | by split_and!].
      * do 4 eexists. by split_and!.
    + do 4 eexists. by split_and!.
Qed.

Lemma loop_sameLocals ns1 ns2 es fuel : ∀ l1 l2 (m : Machine W),
  map structure ns1 = map structure ns2 →
  sameLocals l1 l2 →
  ∃ ex l1' l2' m',
    loop svc clock ns1 es fuel l1 m = (ex, l1', m') ∧
    loop svc clock ns2 es fuel l2 m = (ex, l2', m') ∧
    sameLocals l1' l2'.
Proof.
  induction fuel as [|fuel IH]; intros l1 l2 m Hns Hl; simpl.
  - by exists LoopExhausted, l1, l2, m.
  - destruct (body_sameLocals ns1 ns2 es l1 l2 m Hns Hl)
      as (fl & l1' & l2' & m' & -> & -> & Hl').
    destruct fl; [by exists LoopBreak, l1', l2', m' | by apply IH].
Qed.

(** The state after lines 285-289, field by field. *)
Lemma resetForRun_eq q (m : Machine W) :
  resetForRun clock q m =
  {| app := {| nodes := map clearRunFields (nodes (app m));
               edges := edges (app m);
               initialQuestion := initialQuestion (app m);
               processingLog :=
                 [ {| timestamp := clock (clockReads m);
                      message := "Starting flow with question: " +:+ dq +:+ q +:+ dq;
                      nodeId := None; status := info; groundingMetadata := None |} ];
               finalOutput := None; isProcessing := true; processingError := None;
               currentProcessingNodeId := None; nodeErrors := ∅ |};
     world := world m;
     clockReads := S (clockReads m) |}.
Proof. destruct m as [[] w k]. reflexivity. Qed.

End MoreFacts.

(** X1.  Dead end.  A START node that no edge leaves stops the run at once:
    the iteration logs [Node '...' has no outgoing connection. Flow halted.]
    for the node, marks it in error and breaks the loop without calling the
    service.  A plain AGENT that no edge leaves stops the run in the same
    way right after its call has resolved and its output has been
    logged. *)
Theorem dead_end_stops_the_run {W : Type}
    (svc : string -> string -> option bool -> W -> TaskResult * W)
    (clock : nat -> Z) ns es ls (m : Machine W) :
  n_id (currentNode ls) ∉ visitedNodes ls →
  (∀ e, In e es → e_sourceId e ≠ n_id (currentNode ls)) →
  (n_type (currentNode ls) = START →
   ∃ m', body svc clock ns es ls m = (Break, marked ls, m') ∧
         processingLog (app m') =
           processingLog (app m) ++
           [ {| timestamp := clock (clockReads m);
                message := "Node '" +:+ n_description (currentNode ls) +:+
                             "' has no outgoing connection. Flow halted.";
                nodeId := Some (n_id (currentNode ls)); status := error;
                groundingMetadata := None |} ] ∧
         nodeErrors (app m') !! n_id (currentNode ls) = Some true ∧
         finalOutput (app m') = finalOutput (app m) ∧
         world m' = world m)
  ∧ (n_type (currentNode ls) = AGENT →
     ∀ t gm w',
       svc (n_description (currentNode ls)) (currentInput ls)
           (n_enableInternetSearch (currentNode ls)) (world m) = (Resolved t gm, w') →
       ∃ m', body svc clock ns es ls m = (Break, movedTo (currentNode ls) t ls, m') ∧
             processingLog (app m') =
               processingLog (app m) ++
               [ outputEntry (clock (clockReads m)) (currentNode ls) t gm;
                 {| timestamp := clock (S (clockReads m));
                    message := "Node '" +:+ n_description (currentNode ls) +:+
                                 "' has no outgoing connection. Flow halted.";
                    nodeId := Some (n_id (currentNode ls)); status := error;
                    groundingMetadata := None |} ] ∧
             nodeErrors (app m') !! n_id (currentNode ls) = Some true ∧
             finalOutput (app m') = finalOutput (app m) ∧
             world m' = w').
Proof.
  intros Hf He. split.
  - intros Ht. by apply body_START_dead_end.
  - intros Ht t gm w' Hs. by apply body_AGENT_dead_end.
Qed.

(** X1, witness: the START node of a flow without edges. *)
Lemma dead_end_witness :
  ∃ m', body echoService tick (nodes (mkApp [mkNode "s" START "Workflow Start"] [] "hi")) []
          {| currentNode := mkNode "s" START "Workflow Start"; currentInput := "hi";
             visitedNodes := ∅ |}
          (boot (mkApp [mkNode "s" START "Workflow Start"] [] "hi"))
        = (Break,
           marked {| currentNode := mkNode "s" START "Workflow Start"; currentInput := "hi";
                     visitedNodes := ∅ |}, m') ∧
        map message (processingLog (app m')) =
          ["Node 'Workflow Start' has no outgoing connection. Flow halted."].
Proof.
  destruct (dead_end_stops_the_run echoService tick
              (nodes (mkApp [mkNode "s" START "Workflow Start"] [] "hi")) []
              {| currentNode := mkNode "s" START "Workflow Start"; currentInput := "hi";
                 visitedNodes := ∅ |}
              (boot (mkApp [mkNode "s" START "Workflow Start"] [] "hi")))
    as [HS _].
  - apply not_elem_of_empty.
  - intros e [].
  - destruct HS as (m' & Hb & Hlog & _); [reflexivity|].
    exists m'. rewrite Hlog. by split.
Defined.

(** X2.  Missing target.  When the edge a node follows leads to an id that
    no node of the graph has, the run stops at the node the edge leaves:
    the iteration logs [Target node not found. Flow corrupted.] for that
    node, marks it in error and breaks the loop.  The edge followed is the
    first edge leaving a START or plain AGENT node, and the first edge with
    a matching keyword leaving a CONDITIONAL_AGENT. *)
Theorem missing_target_stops_the_run {W : Type}
    (svc : string -> string -> option bool -> W -> TaskResult * W)
    (clock : nat -> Z) ns es ls (m : Machine W) e :
  n_id (currentNode ls) ∉ visitedNodes ls →
  (∀ n, In n ns → n_id n ≠ e_targetId e) →
  (n_type (currentNode ls) = START →
   firstOutgoing (fun _ => True) (n_id (currentNode ls)) es e →
   ∃ ls' m' x, body svc clock ns es ls m = (Break, ls', m') ∧
               last (processingLog (app m')) = Some x ∧ isCorruptEntry x ∧
               status x = error ∧ nodeId x = Some (n_id (currentNode ls)) ∧
               nodeErrors (app m') !! n_id (currentNode ls) = Some true ∧
               world m' = world m)
  ∧ (∀ t gm w',
       svc (n_description (currentNode ls)) (currentInput ls)
           (n_enableInternetSearch (currentNode ls)) (world m) = (Resolved t gm, w') →
       (n_type (currentNode ls) = AGENT ∧
        firstOutgoing (fun _ => True) (n_id (currentNode ls)) es e)
       ∨ (n_type (currentNode ls) = CONDITIONAL_AGENT ∧
          firstOutgoing (matchesKeyword t) (n_id (currentNode ls)) es e) →
       ∃ ls' m' x, body svc clock ns es ls m = (Break, ls', m') ∧
                   last (processingLog (app m')) = Some x ∧ isCorruptEntry x ∧
                   status x = error ∧ nodeId x = Some (n_id (currentNode ls)) ∧
                   nodeErrors (app m') !! n_id (currentNode ls) = Some true ∧
                   world m' = w').
Proof.
  intros Hf Hno. split.
  - intros Ht He%find_outgoing. unfold body.
    rewrite decide_False by done. rewrite Ht. cbn [currentNode]. rewrite He.
    match goal with |- context [navigate clock ns (Some e) ?l ?m0] =>
      destruct (navigate_missing_target clock ns e l m0 Hno)
        as (m' & -> & Hlog & Herr & _ & Hw) end.
    do 3 eexists. split; [reflexivity|]. rewrite Hlog, last_snoc.
    by split_and!.
  - intros t gm w' Hs [[Ht He%find_outgoing] | [Ht He%find_keyword]]; unfold body;
      rewrite decide_False by done; rewrite Ht; cbn -[find List.filter navigate];
      rewrite Hs; cbn -[find List.filter navigate]; rewrite He;
      match goal with |- context [navigate clock ns (Some e) ?l ?m0] =>
        destruct (navigate_missing_target clock ns e l m0 Hno)
          as (m' & -> & Hlog & Herr & _ & Hw) end;
      (do 3 eexists; split; [reflexivity|]; rewrite Hlog, last_snoc; by split_and!).
Qed.

(** X2, witness: the START node of [dangling]. *)
Lemma missing_target_witness :
  ∃ ls' m' x, body echoService tick (nodes dangling) (edges dangling)
                {| currentNode := mkNode "s" START "Workflow Start"; currentInput := "hi";
                   visitedNodes := ∅ |} (boot dangling) = (Break, ls', m') ∧
              last (processingLog (app m')) = Some x ∧
              message x = "Target node not found. Flow corrupted." ∧
              nodeId x = Some "s".
Proof.
  destruct (missing_target_stops_the_run echoService tick (nodes dangling) (edges dangling)
              {| currentNode := mkNode "s" START "Workflow Start"; currentInput := "hi";
                 visitedNodes := ∅ |} (boot dangling) (mkEdge "e1" "s" "ghost" EmptyString))
    as [HS _].
  - apply not_elem_of_empty.
  - intros n [<- | [<- | []]]; discriminate.
  - destruct HS as (ls' & m' & x & Hb & Hlast & Hmsg & _ & Hid & _).
    + reflexivity.
    + exists [], []. split_and!; [reflexivity | reflexivity | exact I | intros ? []].
    + exists ls', m', x. by split_and!.
Defined.

(** X3.  When every edge of the graph leads to a node of the graph, a run
    on a question that is not blank never logs [Target node not found.
    Flow corrupted.]. *)
Theorem no_missing_target_when_edges_lead_to_nodes {W : Type}
    (svc : string -> string -> option bool -> W -> TaskResult * W)
    (clock : nat -> Z) (m : Machine W) :
  truthy (trim (initialQuestion (app m))) = true →
  targetsExist (nodes (app m)) (edges (app m)) →
  Forall (fun e => ¬ isCorruptEntry e)
    (processingLog (app (snd (handleProcessFlow svc clock m)))).
Proof.
  intros Hq Hok. unfold handleProcessFlow, traverse. rewrite Hq.
  destruct (find _ (nodes (app m))) as [startNode|].
  - destruct (loop _ _ _ _ _ _ _) as [[ex ls] m1] eqn:Hl. cbn [snd].
    apply (loop_no_corrupt svc clock) in Hl; [exact Hl | exact Hok |].
    repeat constructor. unfold isCorruptEntry. simpl. discriminate.
  - repeat constructor; unfold isCorruptEntry; simpl; discriminate.
Qed.

(** X3, witness: START -> AGENT -> END. *)
Lemma no_missing_target_witness :
  Forall (fun e => ¬ isCorruptEntry e)
    (processingLog (app (snd (handleProcessFlow echoService tick (boot happyPath))))).
Proof.
  apply no_missing_target_when_edges_lead_to_nodes.
  - reflexivity.
  - intros e [<- | [<- | []]].
    + exists (mkNode "a" AGENT "uppercase"). split; [right; by left | reflexivity].
    + exists (mkNode "e" END "Workflow End"). split; [right; right; by left | reflexivity].
Defined.

(** X4.  After a run on a question that is not blank, at most one node is
    marked in error, and the mark tells where the run stopped: either no
    node is marked and the log ends with the END entry or with the error
    entry of a graph without START node, which names no node; or exactly
    one node is marked and the log ends with an error entry that names
    that node. *)
Theorem error_mark_is_where_the_run_stopped {W : Type}
    (svc : string -> string -> option bool -> W -> TaskResult * W)
    (clock : nat -> Z) (m : Machine W) ex m' :
  truthy (trim (initialQuestion (app m))) = true →
  handleProcessFlow svc clock m = (ex, m') →
  (nodeErrors (app m') = ∅ ∧
   ∃ e, last (processingLog (app m')) = Some e ∧
        (isCompleted e ∨ (status e = error ∧ nodeId e = None)))
  ∨ (∃ id e, nodeErrors (app m') = {[ id := true ]} ∧
             last (processingLog (app m')) = Some e ∧ status e = error ∧
             nodeId e = Some id).
Proof.
  intros Hq Hrun. unfold handleProcessFlow in Hrun. rewrite Hq in Hrun.
  destruct (traverse svc clock m) as [[ex1 ols] m1] eqn:Htr. simplify_eq.
  pose proof (traverse_closes _ _ _ _ _ _ Htr) as [Hex _].
  unfold traverse in Htr.
  destruct (find _ (nodes (app m))) as [startNode|].
  - destruct (loop _ _ _ _ _ _ _) as [[ex1 ls1] m1] eqn:Hl. simplify_eq.
    pose proof (loop_exit _ _ _ _ _ _ _ _ _ _ Hl) as Hex1.
    apply (loop_nodeErrors svc clock) in Hl; [|reflexivity].
    destruct Hl as [[He Hc] | (id & e & He & Hlast & Hst & Hid)].
    + left. split; [exact He|]. destruct Hex1 as [-> | ->]; [|done].
      destruct (Hc eq_refl) as (e & Hlast & Hcomp). exists e. split; [exact Hlast | by left].
    + right. by exists id, e.
  - simplify_eq. left. split; [reflexivity|].
    eexists. split; [apply last_snoc|]. right. by split.
Qed.

(** X4, witness: the rejected run of START -> AGENT -> END marks the
    agent. *)
Lemma error_mark_witness :
  ∃ id e, nodeErrors (app (snd (handleProcessFlow (failingService "boom") tick (boot happyPath))))
            = {[ id := true ]} ∧
          last (processingLog
                  (app (snd (handleProcessFlow (failingService "boom") tick (boot happyPath)))))
            = Some e ∧
          nodeId e = Some id.
Proof.
  destruct (error_mark_is_where_the_run_stopped (failingService "boom") tick
              (boot happyPath)
              (fst (handleProcessFlow (failingService "boom") tick (boot happyPath)))
              (snd (handleProcessFlow (failingService "boom") tick (boot happyPath))))
    as [[Hempty _] | (id & e & Hm & Hlast & _ & Hid)].
  - reflexivity.
  - apply surjective_pairing.
  - exfalso. apply (f_equal (fun g : gmap string bool => g !! "a")) in Hempty.
    vm_compute in Hempty. discriminate Hempty.
  - by exists id, e.
Defined.

(** X5.  A run calls the service at most once for each AGENT or
    CONDITIONAL_AGENT node of the graph: with a service that counts its
    calls, the count grows during a run by at most the number of agent
    nodes. *)
Theorem at_most_one_call_per_agent {W : Type}
    (svc : string -> string -> option bool -> W -> TaskResult * W)
    (clock : nat -> Z) (m : Machine (W * nat)) :
  snd (world (snd (handleProcessFlow (counted svc) clock m)))
  ≤ snd (world m) + length (List.filter isAgent (nodes (app m))).
Proof.
  unfold handleProcessFlow, traverse. destruct (truthy _); [|simpl; lia].
  destruct (find _ (nodes (app m))) as [startNode|] eqn:Hf; [|simpl; lia].
  destruct (loop _ _ _ _ _ _ _) as [[ex ls] m1] eqn:Hl. cbn [snd].
  apply find_some in Hf as [Hin _].
  apply (loop_counted svc clock _ _ _ (snd (world m))) in Hl; [| exact Hin | simpl; lia].
  cbn [finishRun onApp world]. etrans; [exact Hl|].
  apply Nat.add_le_mono_l. etrans; [|apply size_nodeIds].
  apply subseteq_size. set_solver.
Qed.

(** X6.  The log of a run on a question that is not blank holds nothing of
    earlier runs: it begins with the start entry, which names no node and
    quotes the question, and its entries carry the successive readings of
    the clock made by the handler, in order.  When the handler enters the
    loop every later entry names the node it is about. *)
Theorem log_of_a_run {W : Type}
    (svc : string -> string -> option bool -> W -> TaskResult * W)
    (clock : nat -> Z) (m : Machine W) ex m' :
  truthy (trim (initialQuestion (app m))) = true →
  handleProcessFlow svc clock m = (ex, m') →
  ∃ rest,
    processingLog (app m') =
      {| timestamp := clock (clockReads m);
         message := "Starting flow with question: " +:+ dq +:+
                      initialQuestion (app m) +:+ dq;
         nodeId := None; status := info; groundingMetadata := None |} :: rest ∧
    map timestamp (processingLog (app m')) =
      map clock (seq (clockReads m) (length (processingLog (app m')))) ∧
    clockReads m' = clockReads m + length (processingLog (app m')) ∧
    (ex ≠ EarlyReturn → Forall (fun e => ∃ id, nodeId e = Some id) rest).
Proof.
  intros Hq Hrun. unfold handleProcessFlow, traverse in Hrun. rewrite Hq in Hrun.
  destruct (find _ (nodes (app m))) as [startNode|].
  - destruct (loop _ _ _ _ _ _ _) as [[ex1 ls1] m1] eqn:Hl. simplify_eq.
    apply (loop_log svc clock) in Hl as (new & Hlog & Hk & Hts & Hid).
    cbn [finishRun onApp app clockReads setCurrentProcessingNodeId setIsProcessing
         processingLog].
    simpl in Hlog, Hk, Hts. exists new. rewrite Hlog. split_and!; [done | | | done].
    + cbn [map length seq]. rewrite Hts. reflexivity.
    + rewrite Hk. simpl. lia.
  - simplify_eq. eexists. split_and!; [reflexivity | reflexivity | simpl; lia | done].
Qed.

(** X6, witness: the cyclic run. *)
Lemma log_of_a_run_witness :
  map timestamp
    (processingLog (app (snd (handleProcessFlow echoService tock (boot cyclic))))) =
  map tock (seq 0 4).
Proof.
  destruct (log_of_a_run echoService tock (boot cyclic)
              (fst (handleProcessFlow echoService tock (boot cyclic)))
              (snd (handleProcessFlow echoService tock (boot cyclic))))
    as (rest & _ & Hts & _).
  - reflexivity.
  - apply surjective_pairing.
  - rewrite Hts. vm_compute. reflexivity.
Defined.

(** X7.  A run on a question that is not blank reads nothing of what
    earlier runs left in the state: two states with the same graph (up to
    the display fields of the nodes) and the same question, whatever their
    logs, final outputs, error marks, flags and node display fields, give
    the same result and the same final state, the service and the clock
    being the same. *)
Theorem run_ignores_earlier_runs {W : Type}
    (svc : string -> string -> option bool -> W -> TaskResult * W)
    (clock : nat -> Z) (m1 m2 : Machine W) :
  truthy (trim (initialQuestion (app m1))) = true →
  sameGraph (app m1) (app m2) →
  world m1 = world m2 →
  clockReads m1 = clockReads m2 →
  handleProcessFlow svc clock m1 = handleProcessFlow svc clock m2.
Proof.
  intros Hq (Hns & Hes & Hqq) Hw Hk.
  unfold handleProcessFlow. rewrite Hqq, Hq.
  assert (resetForRun clock (initialQuestion (app m1)) m2
          = resetForRun clock (initialQuestion (app m1)) m1) as Hreset.
  { rewrite !resetForRun_eq.
    rewrite Hw, Hk, Hes, Hqq, (map_clearRunFields_structure _ _ Hns). reflexivity. }
  unfold traverse. rewrite Hqq, Hes, Hreset.
  pose proof (find_structure (fun n => bool_decide (n_type n = START))
                (nodes (app m2)) (nodes (app m1))) as Hfind.
  destruct (find _ (nodes (app m2))) as [s2|], (find _ (nodes (app m1))) as [s1|];
    try (exfalso; apply Hfind; [|exact Hns];
         intros ? ? (_ & -> & _)%structure_fields; done).
  - assert (structure s2 = structure s1) as Hs.
    { apply Hfind; [|exact Hns]. by intros ? ? (_ & -> & _)%structure_fields. }
    assert (length (nodes (app m2)) = length (nodes (app m1))) as Hlen.
    { rewrite <- (length_map structure (nodes (app m2))), Hns. apply length_map. }
    rewrite Hlen.
    destruct (loop_sameLocals svc clock (nodes (app m1)) (nodes (app m2)) (edges (app m1))
                (length (nodes (app m1)) + 10)
                {| currentNode := s1; currentInput := initialQuestion (app m1);
                   visitedNodes := ∅ |}
                {| currentNode := s2; currentInput := initialQuestion (app m1);
                   visitedNodes := ∅ |}
                (resetForRun clock (initialQuestion (app m1)) m1))
      as (ex & l1 & l2 & m' & -> & -> & _); [by symmetry | by split_and! | reflexivity].
  - reflexivity.
Qed.

(** X7, witness: running START -> AGENT -> END from the state left by a
    failed run gives what the run from the fresh state gives. *)
Lemma run_ignores_earlier_runs_witness :
  handleProcessFlow echoService tick (boot happyPath) =
  handleProcessFlow echoService tick afterFailedRun.
Proof.
  apply run_ignores_earlier_runs; [reflexivity | | reflexivity | reflexivity].
  unfold sameGraph. vm_compute. by split_and!.
Defined.

(** * Properties of the editor *)

(** ** Well-formed graphs under changes of the node and edge lists *)

Lemma filter_length_le {A} (p : A → bool) (l : list A) :
  length (List.filter p l) ≤ length l.
Proof. induction l as [|a l IH]; simpl; [lia|]. destruct (p a); simpl; lia. Qed.

Lemma filter_filter_length_le {A} (p q : A → bool) (l : list A) :
  length (List.filter p (List.filter q l)) ≤ length (List.filter p l).
Proof.
  induction l as [|a l IH]; simpl; [lia|].
  destruct (q a), (p a) eqn:Hp; simpl; rewrite ?Hp; simpl; lia.
Qed.

Lemma filter_map_same {A} (p : A → bool) (f : A → A) (l : list A) :
  (∀ a, p (f a) = p a) →
  length (List.filter p (map f l)) = length (List.filter p l).
Proof.
  intros Hp. induction l as [|a l IH]; simpl; [done|].
  rewrite Hp. destruct (p a); simpl; lia.
Qed.

Lemma filter_ext_length {A B} (p : A → bool) (q : B → bool) (f : A → B) (l : list A) :
  (∀ a, q (f a) = p a) →
  length (List.filter q (map f l)) = length (List.filter p l).
Proof.
  intros Hp. induction l as [|a l IH]; simpl; [done|].
  rewrite Hp. destruct (p a); simpl; lia.
Qed.

(** Being well formed depends on the nodes only through their ids and
    types. *)
Lemma WellFormed_same_kinds ns ns' es :
  map (fun n => (n_id n, n_type n)) ns' = map (fun n => (n_id n, n_type n)) ns →
  WellFormed ns es → WellFormed ns' es.
Proof.
  intros Hk [Hids Hs He Hsrc Htgt Hloop Hone].
  assert (map n_id ns' = map n_id ns) as Hid.
  { apply (f_equal (map fst)) in Hk. by rewrite !map_map in Hk. }
  assert (∀ t, length (List.filter (isType t) ns') = length (List.filter (isType t) ns)) as Hcount.
  { intros t.
    rewrite <- (filter_ext_length (isType t) (fun p => bool_decide (snd p = t))
                  (fun n => (n_id n, n_type n)) ns') by done.
    rewrite <- (filter_ext_length (isType t) (fun p => bool_decide (snd p = t))
                  (fun n => (n_id n, n_type n)) ns) by done.
    by rewrite Hk. }
  assert (∀ n, In n ns → ∃ n', In n' ns' ∧ n_id n' = n_id n ∧ n_type n' = n_type n) as Hfwd.
  { intros n Hin. apply (in_map (fun n => (n_id n, n_type n))) in Hin.
    rewrite <- Hk in Hin. apply in_map_iff in Hin as (n' & [= ? ?] & Hin'). by exists n'. }
  assert (∀ n', In n' ns' → ∃ n, In n ns ∧ n_id n = n_id n' ∧ n_type n = n_type n') as Hbwd.
  { intros n' Hin. apply (in_map (fun n => (n_id n, n_type n))) in Hin.
    rewrite Hk in Hin. apply in_map_iff in Hin as (n & [= ? ?] & Hin'). by exists n. }
  split.
  - by rewrite Hid.
  - by rewrite Hcount.
  - by rewrite Hcount.
  - intros e Hin. destruct (Hsrc e Hin) as (n & Hn & Hi & Ht).
    destruct (Hfwd n Hn) as (n' & ? & ? & ?). exists n'. split_and!; congruence.
  - intros e Hin. destruct (Htgt e Hin) as (n & Hn & Hi & Ht).
    destruct (Hfwd n Hn) as (n' & ? & ? & ?). exists n'. split_and!; congruence.
  - done.
  - intros n' Hin Ht. destruct (Hbwd n' Hin) as (n & Hn & Hi & Hty).
    rewrite <- Hi. apply Hone; [done | congruence].
Qed.

Lemma WellFormed_same_structure ns ns' es :
  map structure ns' = map structure ns → WellFormed ns es → WellFormed ns' es.
Proof.
  intros Hs. apply WellFormed_same_kinds.
  apply (f_equal (map (fun p : string * NodeType * string * Z * Z * option bool =>
                         (fst (fst (fst (fst (fst p)))), snd (fst (fst (fst (fst p)))))))) in Hs.
  by rewrite !map_map in Hs.
Qed.

(** Removing edges keeps a graph well formed. *)
Lemma WellFormed_filter_edges ns es (p : AgentEdge → bool) :
  WellFormed ns es → WellFormed ns (List.filter p es).
Proof.
  intros [Hids Hs He Hsrc Htgt Hloop Hone]. split; try done.
  - intros e [Hin _]%filter_In. by apply Hsrc.
  - intros e [Hin _]%filter_In. by apply Htgt.
  - intros e [Hin _]%filter_In. by apply Hloop.
  - intros n Hin Ht. etrans; [apply filter_filter_length_le | by apply Hone].
Qed.

(** Changing the keywords of edges keeps a graph well formed. *)
Lemma WellFormed_map_edges ns es (f : AgentEdge → AgentEdge) :
  (∀ e, e_sourceId (f e) = e_sourceId e ∧ e_targetId (f e) = e_targetId e) →
  WellFormed ns es → WellFormed ns (map f es).
Proof.
  intros Hf [Hids Hs He Hsrc Htgt Hloop Hone]. split; try done.
  - intros e (e0 & <- & Hin)%in_map_iff. rewrite (proj1 (Hf e0)). by apply Hsrc.
  - intros e (e0 & <- & Hin)%in_map_iff. rewrite (proj2 (Hf e0)). by apply Htgt.
  - intros e (e0 & <- & Hin)%in_map_iff. rewrite (proj1 (Hf e0)), (proj2 (Hf e0)).
    by apply Hloop.
  - intros n Hin Ht. rewrite filter_map_same; [by apply Hone|].
    intros e. unfold isOutgoing. by rewrite (proj1 (Hf e)).
Qed.

Lemma filter_isOutgoing_nil id es :
  (∀ e, In e es → e_sourceId e ≠ id) → List.filter (isOutgoing id) es = [].
Proof.
  induction es as [|a es IH]; simpl; [done|]. intros Hall.
  destruct (isOutgoing id a) eqn:Ho.
  - apply isOutgoing_spec in Ho. destruct (Hall a); [by left | done].
  - apply IH. intros e Hin. apply Hall. by right.
Qed.

Lemma filter_isType_filter t (p : AgentNode → bool) ns :
  (∀ n, In n ns → n_type n = t → p n = true) →
  List.filter (isType t) (List.filter p ns) = List.filter (isType t) ns.
Proof.
  induction ns as [|a ns IH]; simpl; [done|]. intros Hall.
  assert (List.filter (isType t) (List.filter p ns) = List.filter (isType t) ns) as IH'
    by (apply IH; intros n Hin; apply Hall; by right).
  destruct (isType t a) eqn:Ht.
  - rewrite (Hall a) by (by left || by apply bool_decide_eq_true in Ht).
    simpl. by rewrite Ht, IH'.
  - destruct (p a); simpl; [by rewrite Ht|]; done.
Qed.

(** Removing the nodes of one id, not START nor END, with the edges that
    touch them, keeps a graph well formed. *)
Lemma WellFormed_delete_node ns es id :
  (∀ n, In n ns → n_id n = id → n_type n ≠ START ∧ n_type n ≠ END) →
  WellFormed ns es →
  WellFormed (List.filter (fun n => negb (bool_decide (n_id n = id))) ns)
             (List.filter (fun e => negb (bool_decide (e_sourceId e = id)) &&
                                    negb (bool_decide (e_targetId e = id))) es).
Proof.
  intros Hguard [Hids Hs He Hsrc Htgt Hloop Hone].
  assert (∀ t, t = START ∨ t = END →
               List.filter (isType t) (List.filter (fun n => negb (bool_decide (n_id n = id))) ns)
               = List.filter (isType t) ns) as Hcount.
  { intros t Ht. apply filter_isType_filter. intros n Hin Hty.
    apply negb_true_iff, bool_decide_eq_false. intros Hid.
    destruct (Hguard n Hin Hid). destruct Ht; congruence. }
  split.
  - clear -Hids. induction ns as [|a ns IH]; simpl; [constructor|].
    apply NoDup_cons in Hids as [Ha Hids].
    destruct (negb _); simpl; [|by apply IH].
    apply NoDup_cons. split; [|by apply IH].
    intros Hin. apply Ha. apply list_elem_of_In in Hin. apply list_elem_of_In.
    apply in_map_iff in Hin as (n & Hn & [Hin _]%filter_In).
    apply in_map_iff. by exists n.
  - rewrite Hcount by (by left). done.
  - rewrite Hcount by (by right). done.
  - intros e [Hin [Hs1 Ht1]%andb_true_iff]%filter_In.
    destruct (Hsrc e Hin) as (n & Hn & Hi & Hty). exists n. split_and!; try done.
    apply filter_In. split; [done|]. by rewrite Hi.
  - intros e [Hin [Hs1 Ht1]%andb_true_iff]%filter_In.
    destruct (Htgt e Hin) as (n & Hn & Hi & Hty). exists n. split_and!; try done.
    apply filter_In. split; [done|]. by rewrite Hi.
  - intros e [Hin _]%filter_In. by apply Hloop.
  - intros n [Hin _]%filter_In Ht.
    etrans; [apply filter_filter_length_le | by apply Hone].
Qed.

(** Appending an agent node with a fresh id keeps a graph well formed. *)
Lemma WellFormed_add_node ns es new :
  n_type new = AGENT ∨ n_type new = CONDITIONAL_AGENT →
  ¬ In (n_id new) (map n_id ns) →
  WellFormed ns es → WellFormed (ns ++ [new]) es.
Proof.
  intros Hty Hfresh [Hids Hs He Hsrc Htgt Hloop Hone]. split.
  - rewrite map_app. apply NoDup_app. split_and!; [done | | apply NoDup_singleton].
    intros x Hx [->|[]%elem_of_nil]%elem_of_cons. by apply list_elem_of_In in Hx.
  - rewrite List.filter_app, length_app, Hs. simpl. unfold isType.
    rewrite bool_decide_eq_false_2 by (destruct Hty; congruence). done.
  - rewrite List.filter_app, length_app, He. simpl. unfold isType.
    rewrite bool_decide_eq_false_2 by (destruct Hty; congruence). done.
  - intros e Hin. destruct (Hsrc e Hin) as (n & Hn & ?). exists n.
    split; [apply in_or_app; by left | done].
  - intros e Hin. destruct (Htgt e Hin) as (n & Hn & ?). exists n.
    split; [apply in_or_app; by left | done].
  - done.
  - intros n [Hin | [<- | []]]%in_app_or Ht; [by apply Hone|].
    rewrite filter_isOutgoing_nil; [simpl; lia|].
    intros e Hin Hs1. destruct (Hsrc e Hin) as (n & Hn & Hi & _).
    apply Hfresh. rewrite <- Hs1, <- Hi. by apply in_map.
Qed.

Lemma find_id_unique ns n :
  NoDup (map n_id ns) → In n ns →
  find (fun n0 => bool_decide (n_id n0 = n_id n)) ns = Some n.
Proof.
  intros Hnd Hin.
  destruct (find _ ns) as [n0|] eqn:Hf.
  - apply find_some in Hf as [Hin0 Hid%bool_decide_eq_true].
    f_equal. by apply (NoDup_ids_eq ns).
  - pose proof (find_none _ _ Hf n Hin) as Hb. simpl in Hb.
    by apply bool_decide_eq_false in Hb.
Qed.

(** Appending an edge between two different nodes of the graph, the source
    not END, the target not START, and the source without outgoing edge
    when it is START or a plain AGENT, keeps a graph well formed. *)
Lemma WellFormed_add_edge ns es src tgt new :
  In src ns → In tgt ns →
  e_sourceId new = n_id src → e_targetId new = n_id tgt →
  n_id src ≠ n_id tgt →
  n_type src ≠ END → n_type tgt ≠ START →
  (n_type src = START ∨ n_type src = AGENT →
   ∀ e, In e es → e_sourceId e ≠ n_id src) →
  WellFormed ns es → WellFormed ns (es ++ [new]).
Proof.
  intros Hsin Htin Hns Hnt Hne Hsty Htty Hfree [Hids Hs He Hsrc Htgt Hloop Hone].
  split; try done.
  - intros e [Hin | [<- | []]]%in_app_or; [by apply Hsrc|]. exists src. by split_and!.
  - intros e [Hin | [<- | []]]%in_app_or; [by apply Htgt|]. exists tgt. by split_and!.
  - intros e [Hin | [<- | []]]%in_app_or; [by apply Hloop | congruence].
  - intros n Hin Ht. rewrite List.filter_app, length_app. simpl.
    destruct (isOutgoing (n_id n) new) eqn:Ho; simpl.
    + apply isOutgoing_spec in Ho.
      assert (n = src) as -> by (apply (NoDup_ids_eq ns); congruence).
      rewrite filter_isOutgoing_nil by (by apply Hfree). simpl. lia.
    + pose proof (Hone n Hin Ht). lia.
Qed.

Section EditorFacts.

Context {W : Type}.
Variable clock : nat -> Z.

Local Ltac ed_cbn :=
  unfold graphNodes, graphEdges, setConnectingFromNodeId, setSelectedNodeId,
    setDraggingNodeId, onMachine, addLog, onApp, setEdges, setNodes, setProcessingLog;
  cbn [machine app nodes edges processingLog selectedNodeId connectingFromNodeId
       draggingNodeId world clockReads initialQuestion finalOutput isProcessing
       processingError currentProcessingNodeId nodeErrors].

(** What a click on a node does to the graph: the nodes are untouched, and
    the edges either are untouched or gain, at the end, one edge with the
    empty keyword from the connecting node to the clicked node.  The edge
    is added only in connection mode, between two different nodes of the
    graph, the source not END, the target not START, and the source
    without outgoing edge when it is START or a plain AGENT. *)
Lemma handleNodeClick_graph nodeId newId (e : Editor W) :
  graphNodes (handleNodeClick clock nodeId newId e) = graphNodes e ∧
  (graphEdges (handleNodeClick clock nodeId newId e) = graphEdges e
   ∨ ∃ from src tgt,
       connectingFromNodeId e = Some from ∧ from ≠ nodeId ∧
       find (fun n => bool_decide (n_id n = from)) (graphNodes e) = Some src ∧
       find (fun n => bool_decide (n_id n = nodeId)) (graphNodes e) = Some tgt ∧
       n_type src ≠ END ∧ n_type tgt ≠ START ∧
       (n_type src = START ∨ n_type src = AGENT →
        ∀ edge, In edge (graphEdges e) → e_sourceId edge ≠ from) ∧
       graphEdges (handleNodeClick clock nodeId newId e) =
         graphEdges e ++
         [ {| e_id := newId; e_sourceId := from; e_targetId := nodeId;
              e_conditionKeyword := Some EmptyString |} ]).
Proof.
  unfold handleNodeClick.
  destruct (connectingFromNodeId e) as [from|] eqn:Hfrom; [|by split; [|left]].
  destruct (truthy from && negb (bool_decide (from = nodeId))) eqn:Hc; [|by split; [|left]].
  apply andb_true_iff in Hc as [_ Hne%negb_true_iff%bool_decide_eq_false].
  destruct (find (fun n => bool_decide (n_id n = from)) (graphNodes e)) as [src|] eqn:Hs;
    [|by split; [|left]].
  destruct (find (fun n => bool_decide (n_id n = nodeId)) (graphNodes e)) as [tgt|] eqn:Ht;
    [|by split; [|left]].
  destruct (negb (bool_decide (n_type src = END)) && negb (bool_decide (n_type tgt = START)))
    eqn:Hty; [|by split; [|left]].
  apply andb_true_iff in Hty as [Hs1%negb_true_iff%bool_decide_eq_false
                                 Ht1%negb_true_iff%bool_decide_eq_false].
  destruct ((bool_decide (n_type src = START) || bool_decide (n_type src = AGENT))
            && bool_decide (is_Some (find (fun edge => bool_decide (e_sourceId edge = from))
                                       (graphEdges e)))) eqn:Hex;
    [by split; [|left]|].
  split; [reflexivity|]. right. exists from, src, tgt.
  split_and!; try done.
  intros Hplain edge Hin Hsrc.
  apply andb_false_iff in Hex as [Hex | Hex].
  - apply orb_false_iff in Hex as [H1%bool_decide_eq_false H2%bool_decide_eq_false].
    by destruct Hplain.
  - apply bool_decide_eq_false in Hex. apply Hex.
    destruct (find _ (graphEdges e)) as [x|] eqn:Hf; [by eexists|].
    pose proof (find_none _ _ Hf edge Hin) as Hb. simpl in Hb.
    by apply bool_decide_eq_false in Hb.
Qed.

(** A click never leaves the editor in connection mode when it was in it
    for another node; otherwise it selects the clicked node. *)
Lemma handleNodeClick_mode nodeId newId (e : Editor W) :
  (connectingFromNodeId (handleNodeClick clock nodeId newId e) = None ∧
   selectedNodeId (handleNodeClick clock nodeId newId e) = selectedNodeId e)
  ∨ (connectingFromNodeId (handleNodeClick clock nodeId newId e) = connectingFromNodeId e ∧
     selectedNodeId (handleNodeClick clock nodeId newId e) = Some nodeId ∧
     handleNodeClick clock nodeId newId e = setSelectedNodeId (Some nodeId) e).
Proof.
  unfold handleNodeClick.
  destruct (connectingFromNodeId e) as [from|] eqn:Hfrom;
    [|right; split_and!; [exact Hfrom | reflexivity | reflexivity]].
  destruct (truthy from && negb (bool_decide (from = nodeId)));
    [|right; split_and!; [exact Hfrom | reflexivity | reflexivity]].
  left. split; [reflexivity|].
  repeat case_match; reflexivity.
Qed.

Lemma handleNodeClick_WellFormed nodeId newId (e : Editor W) :
  WellFormed (graphNodes e) (graphEdges e) →
  WellFormed (graphNodes (handleNodeClick clock nodeId newId e))
             (graphEdges (handleNodeClick clock nodeId newId e)).
Proof.
  intros Hwf.
  destruct (handleNodeClick_graph nodeId newId e)
    as [-> [-> | (from & src & tgt & Hfrom & Hne & Hs & Ht & Hs1 & Ht1 & Hfree & ->)]];
    [done|].
  apply find_some in Hs as [Hsin Hsid%bool_decide_eq_true].
  apply find_some in Ht as [Htin Htid%bool_decide_eq_true].
  apply (WellFormed_add_edge _ _ src tgt); try done; simpl; try congruence.
  intros Hplain edge Hin. rewrite Hsid. by apply Hfree.
Qed.

End EditorFacts.

Lemma initializeFlow_WellFormed {W : Type} (s t : string) (e : Editor W) :
  s ≠ t →
  WellFormed (graphNodes (initializeFlow s t e)) (graphEdges (initializeFlow s t e)).
Proof.
  intros Hne. unfold graphNodes, graphEdges. cbn. split; try done.
  - repeat (apply NoDup_cons; split); [| apply not_elem_of_nil | apply NoDup_nil_2].
    rewrite list_elem_of_singleton. done.
  - intros n [<- | [<- | []]] _; simpl; lia.
Qed.

Lemma map_kinds_updateNode id f ns :
  (∀ n, n_id (f n) = n_id n ∧ n_type (f n) = n_type n) →
  map (fun n => (n_id n, n_type n)) (updateNode id f ns)
  = map (fun n => (n_id n, n_type n)) ns.
Proof.
  intros Hf. unfold updateNode. rewrite map_map. apply map_ext. intros n.
  destruct (decide (n_id n = id)); [|done]. by destruct (Hf n) as [-> ->].
Qed.

(** Every action of the user keeps the graph well formed. *)
Lemma uiStep_WellFormed {W : Type} (e e' : Editor W) :
  uiStep e e' →
  WellFormed (graphNodes e) (graphEdges e) →
  WellFormed (graphNodes e') (graphEdges e').
Proof.
  intros Hstep Hwf. destruct Hstep.
  - (* add node *)
    apply (WellFormed_add_node (graphNodes e) (graphEdges e)); [| done | done].
    simpl. done.
  - by apply handleNodeClick_WellFormed.
  - (* description *)
    eapply WellFormed_same_kinds; [|exact Hwf].
    unfold graphNodes. cbn. by apply map_kinds_updateNode.
  - (* search flag *)
    eapply WellFormed_same_kinds; [|exact Hwf].
    unfold graphNodes. cbn. rewrite map_map. apply map_ext. intros n.
    by destruct (_ && _).
  - (* keyword *)
    apply (WellFormed_map_edges (graphNodes e) (graphEdges e)); [|done].
    intros edge. by destruct (bool_decide _).
  - (* delete node *)
    assert (WellFormed
              (List.filter (fun n0 => negb (bool_decide (n_id n0 = n_id n))) (graphNodes e))
              (List.filter (fun edge => negb (bool_decide (e_sourceId edge = n_id n)) &&
                                        negb (bool_decide (e_targetId edge = n_id n)))
                 (graphEdges e))) as Hdel.
    { apply WellFormed_delete_node; [|done]. intros n0 Hin Hid.
      match goal with Hf : find _ _ = Some n |- _ => apply find_some in Hf as [Hn _] end.
      assert (n0 = n) as -> by (apply (NoDup_ids_eq (graphNodes e)); [apply Hwf|done..]).
      done. }
    unfold handleDeleteNode. by destruct (bool_decide _).
  - by apply WellFormed_filter_edges.
  - by apply WellFormed_filter_edges.
  - by apply WellFormed_filter_edges.
  - done.
  - unfold handleClearFlow. destruct confirmed; [by apply initializeFlow_WellFormed | done].
  - unfold handleNodeMouseDown. by destruct (find _ _).
  - unfold handleCanvasClick. by destruct (truthyOpt _).
  - (* drag *)
    unfold handleGlobalMouseMove. destruct (draggingNodeId e) as [d|]; [|done].
    destruct (truthy d); [|done].
    eapply WellFormed_same_kinds; [|exact Hwf].
    unfold graphNodes. cbn. by apply map_kinds_updateNode.
  - done.
  - done.
  - (* run *)
    assert (sameGraph (app (machine e))
              (app (snd (handleProcessFlow svc clock (machine e))))) as (Hns & Hes & _).
    { unfold handleProcessFlow. destruct (truthy _); [|by repeat split].
      destruct (traverse svc clock (machine e)) as [[ex ols] m'] eqn:Htr.
      eapply traverse_sameGraph, Htr. }
    unfold graphNodes, graphEdges. cbn [onMachine machine]. rewrite Hes.
    eapply WellFormed_same_structure; [exact Hns | exact Hwf].
Qed.

(** Every state the user can reach holds a well-formed graph. *)
Lemma reachable_WellFormed {W : Type} (e : Editor W) :
  reachable e → WellFormed (graphNodes e) (graphEdges e).
Proof.
  induction 1 as [e0 s t Hne | e e' _ IH Hstep].
  - by apply initializeFlow_WellFormed.
  - eapply uiStep_WellFormed; eauto.
Qed.

(** X8.  Every state the user can reach from a freshly initialised flow
    holds a well-formed graph: the node ids are unique, there is one START
    and one END node, every edge leaves a node of the graph that is not END
    and leads to another node of the graph that is not START, and START
    and plain AGENT nodes have at most one outgoing edge.  The ids drawn
    for new nodes are taken to be fresh. *)
Theorem editor_graph_is_well_formed {W : Type} (e : Editor W) :
  reachable e → WellFormed (graphNodes e) (graphEdges e).
Proof. apply reachable_WellFormed. Qed.

(** X8, witness: the fresh flow with an agent added and START connected to
    it. *)
Lemma editor_graph_witness :
  WellFormed
    (graphNodes (handleNodeClick tick "a" "k1"
                   (handleStartConnection "s" (handleAddNode AGENT "a" 290 940 freshEditor))))
    (graphEdges (handleNodeClick tick "a" "k1"
                   (handleStartConnection "s" (handleAddNode AGENT "a" 290 940 freshEditor)))).
Proof.
  apply editor_graph_is_well_formed.
  apply (reachable_step (handleStartConnection "s" (handleAddNode AGENT "a" 290 940 freshEditor)));
    [|apply ui_nodeClick].
  apply (reachable_step (handleAddNode AGENT "a" 290 940 freshEditor));
    [|apply ui_startConnection].
  apply (reachable_step freshEditor).
  - apply (reachable_init blankEditor "s" "e"). discriminate.
  - apply ui_addNode; [by left|].
    intros [H | [H | []]]; discriminate.
Defined.

(** X9.  A click on a node leaves the nodes of the graph as they are and
    adds at most one edge.  An edge is added only in connection mode, from
    the connecting node to the clicked node, both nodes of the graph and
    different, the source not END, the target not START, and the source
    without outgoing edge when it is START or a plain AGENT; the edge goes
    to the end of the edge list and has the empty keyword.  After the
    click, either connection mode is off and the selection is as before,
    or connection mode is as before and the click has done nothing but
    select the clicked node. *)
Theorem node_click_adds_at_most_one_edge {W : Type} (clock : nat -> Z)
    (nodeId newId : string) (e : Editor W) :
  let e' := handleNodeClick clock nodeId newId e in
  graphNodes e' = graphNodes e ∧
  (graphEdges e' = graphEdges e
   ∨ ∃ from src tgt,
       connectingFromNodeId e = Some from ∧ from ≠ nodeId ∧
       find (fun n => bool_decide (n_id n = from)) (graphNodes e) = Some src ∧
       find (fun n => bool_decide (n_id n = nodeId)) (graphNodes e) = Some tgt ∧
       n_type src ≠ END ∧ n_type tgt ≠ START ∧
       (n_type src = START ∨ n_type src = AGENT →
        ∀ edge, In edge (graphEdges e) → e_sourceId edge ≠ from) ∧
       graphEdges e' =
         graphEdges e ++
         [ {| e_id := newId; e_sourceId := from; e_targetId := nodeId;
              e_conditionKeyword := Some EmptyString |} ])
  ∧ ((connectingFromNodeId e' = None ∧ selectedNodeId e' = selectedNodeId e)
     ∨ (connectingFromNodeId e' = connectingFromNodeId e ∧
        e' = setSelectedNodeId (Some nodeId) e)).
Proof.
  cbv zeta. destruct (handleNodeClick_graph clock nodeId newId e) as [Hn He].
  split_and!; [exact Hn | exact He |].
  destruct (handleNodeClick_mode clock nodeId newId e) as [[? ?] | (? & ? & ?)];
    [by left | by right].
Qed.

(** X10.  The one-edge rule of the editor.  In connection mode from a
    START or plain AGENT node that already has an outgoing edge, a click
    on a valid target adds no edge: the graph is unchanged, one error
    entry that names no node is appended to the log, and connection mode
    ends. *)
Theorem second_connection_is_refused {W : Type} (clock : nat -> Z)
    (nodeId newId from : string) (src tgt : AgentNode) (e : Editor W) :
  connectingFromNodeId e = Some from →
  truthy from = true →
  from ≠ nodeId →
  find (fun n => bool_decide (n_id n = from)) (graphNodes e) = Some src →
  find (fun n => bool_decide (n_id n = nodeId)) (graphNodes e) = Some tgt →
  n_type src = START ∨ n_type src = AGENT →
  n_type tgt ≠ START →
  (∃ edge, In edge (graphEdges e) ∧ e_sourceId edge = from) →
  let e' := handleNodeClick clock nodeId newId e in
  graphNodes e' = graphNodes e ∧
  graphEdges e' = graphEdges e ∧
  processingLog (app (machine e')) =
    processingLog (app (machine e)) ++
    [ {| timestamp := clock (clockReads (machine e));
         message := replaceUnderscores (typeName (n_type src)) +:+
                      " nodes can only have one outgoing connection. Delete existing one first.";
         nodeId := None; status := error; groundingMetadata := None |} ] ∧
  connectingFromNodeId e' = None.
Proof.
  intros Hfrom Htr Hne Hs Ht Hplain Htty (edge & Hin & Hsrc). cbv zeta.
  unfold handleNodeClick. rewrite Hfrom, Htr.
  rewrite bool_decide_eq_false_2 by done. cbn [andb negb]. rewrite Hs, Ht.
  rewrite (bool_decide_eq_false_2 (n_type src = END)) by (destruct Hplain; congruence).
  rewrite (bool_decide_eq_false_2 (n_type tgt = START)) by done. cbn [andb negb].
  assert (bool_decide (n_type src = START) || bool_decide (n_type src = AGENT) = true) as ->.
  { destruct Hplain as [-> | ->]; reflexivity. }
  assert (is_Some (find (fun edge0 => bool_decide (e_sourceId edge0 = from)) (graphEdges e)))
    as Hex.
  { destruct (find _ (graphEdges e)) as [x|] eqn:Hf; [by eexists|].
    pose proof (find_none _ _ Hf edge Hin) as Hb. simpl in Hb.
    by apply bool_decide_eq_false in Hb. }
  rewrite (bool_decide_eq_true_2 _ Hex). cbn [andb].
  by split_and!.
Qed.

(** X10, witness: a second connection from START in the fresh flow that
    already connects START to END. *)
Lemma second_connection_witness :
  let e := handleStartConnection "s" (handleAddNode AGENT "a" 290 940 connectedEditor) in
  graphEdges (handleNodeClick tick "a" "k2" e) = graphEdges e ∧
  connectingFromNodeId (handleNodeClick tick "a" "k2" e) = None.
Proof.
  cbv zeta.
  destruct (second_connection_is_refused tick "a" "k2" "s"
              {| n_id := "s"; n_type := START; n_description := "Workflow Start";
                 n_x := 50; n_y := 940; n_output := Some EmptyString;
                 n_lastProcessedInput := Some EmptyString;
                 n_enableInternetSearch := None; n_groundingMetadata := Some [] |}
              {| n_id := "a"; n_type := AGENT; n_description := "New AGENT 1";
                 n_x := 290; n_y := 940; n_output := Some EmptyString;
                 n_lastProcessedInput := Some EmptyString;
                 n_enableInternetSearch := Some false; n_groundingMetadata := Some [] |}
              (handleStartConnection "s" (handleAddNode AGENT "a" 290 940 connectedEditor)))
    as (_ & He & _ & Hc).
  - reflexivity.
  - reflexivity.
  - discriminate.
  - vm_compute. reflexivity.
  - vm_compute. reflexivity.
  - by left.
  - discriminate.
  - eexists. split; [left; reflexivity | reflexivity].
  - by split.
Defined.

(** X11.  Deleting a node removes every node of that id and every edge that
    leaves or enters it, and nothing else: the other nodes and edges stay,
    in their order.  Afterwards no edge of the graph mentions the id. *)
Theorem delete_node_removes_its_edges {W : Type} (nodeId : string) (e : Editor W) :
  let e' := handleDeleteNode nodeId e in
  graphNodes e' = List.filter (fun n => negb (bool_decide (n_id n = nodeId))) (graphNodes e) ∧
  graphEdges e' =
    List.filter (fun edge => negb (bool_decide (e_sourceId edge = nodeId)) &&
                             negb (bool_decide (e_targetId edge = nodeId))) (graphEdges e) ∧
  (∀ n, In n (graphNodes e') ↔ In n (graphNodes e) ∧ n_id n ≠ nodeId) ∧
  (∀ edge, In edge (graphEdges e') ↔
           In edge (graphEdges e) ∧ e_sourceId edge ≠ nodeId ∧ e_targetId edge ≠ nodeId) ∧
  selectedNodeId e' ≠ Some nodeId.
Proof.
  cbv zeta.
  assert (graphNodes (handleDeleteNode nodeId e)
          = List.filter (fun n => negb (bool_decide (n_id n = nodeId))) (graphNodes e)) as Hn
    by (unfold handleDeleteNode; by destruct (bool_decide _)).
  assert (graphEdges (handleDeleteNode nodeId e)
          = List.filter (fun edge => negb (bool_decide (e_sourceId edge = nodeId)) &&
                                     negb (bool_decide (e_targetId edge = nodeId)))
              (graphEdges e)) as He
    by (unfold handleDeleteNode; by destruct (bool_decide _)).
  split_and!; [exact Hn | exact He | | |].
  - intros n. rewrite Hn, filter_In, negb_true_iff, bool_decide_eq_false. done.
  - intros edge. rewrite He, filter_In, andb_true_iff, !negb_true_iff, !bool_decide_eq_false.
    done.
  - unfold handleDeleteNode. destruct (bool_decide _) eqn:Hsel; [done|].
    by apply bool_decide_eq_false in Hsel.
Qed.

(** X12.  The keyword typed for an edge is stored trimmed, on every edge of
    that id and on no other; the source and target of the edges are
    untouched.  In particular a keyword made of white space only is stored
    as the empty keyword, and an edge with that keyword matches no
    output: a CONDITIONAL_AGENT never follows it. *)
Theorem keyword_is_stored_trimmed {W : Type} (edgeId keyword : string) (e : Editor W) :
  let e' := handleUpdateEdgeKeyword edgeId keyword e in
  graphNodes e' = graphNodes e ∧
  map e_sourceId (graphEdges e') = map e_sourceId (graphEdges e) ∧
  map e_targetId (graphEdges e') = map e_targetId (graphEdges e) ∧
  map e_id (graphEdges e') = map e_id (graphEdges e) ∧
  (∀ edge', In edge' (graphEdges e') →
            (e_id edge' = edgeId ∧ e_conditionKeyword edge' = Some (trim keyword))
            ∨ (e_id edge' ≠ edgeId ∧ In edge' (graphEdges e))) ∧
  (truthy (trim keyword) = false →
   ∀ edge' t, In edge' (graphEdges e') → e_id edge' = edgeId →
              keywordMatches t edge' = false ∧ ¬ matchesKeyword t edge').
Proof.
  cbv zeta. unfold handleUpdateEdgeKeyword, graphNodes, graphEdges. cbn.
  assert (∀ edge', In edge' (map (fun edge => if bool_decide (e_id edge = edgeId)
                                           then withConditionKeyword (Some (trim keyword)) edge
                                           else edge) (edges (app (machine e)))) →
            (e_id edge' = edgeId ∧ e_conditionKeyword edge' = Some (trim keyword))
            ∨ (e_id edge' ≠ edgeId ∧ In edge' (edges (app (machine e))))) as Hin.
  { intros edge' (x & <- & Hx)%in_map_iff.
    destruct (bool_decide (e_id x = edgeId)) eqn:Hid.
    - left. apply bool_decide_eq_true in Hid. by split.
    - right. apply bool_decide_eq_false in Hid. by split. }
  split_and!; try done.
  - rewrite map_map. apply map_ext. intros x. by destruct (bool_decide _).
  - rewrite map_map. apply map_ext. intros x. by destruct (bool_decide _).
  - rewrite map_map. apply map_ext. intros x. by destruct (bool_decide _).
  - intros Hblank edge' t Hedge Hid.
    destruct (Hin edge' Hedge) as [[_ Hkw] | [Hne _]]; [|done].
    assert (keywordMatches t edge' = false) as Hk.
    { unfold keywordMatches. rewrite Hkw, Hblank. reflexivity. }
    split; [exact Hk|]. intros Hm%keywordMatches_spec. congruence.
Qed.

(** X12, witness: the keyword of the START edge set to two spaces. *)
Lemma keyword_witness :
  map e_conditionKeyword (graphEdges (handleUpdateEdgeKeyword "k1" "  " connectedEditor))
    = [Some EmptyString] ∧
  (∀ edge' t, In edge' (graphEdges (handleUpdateEdgeKeyword "k1" "  " connectedEditor)) →
              e_id edge' = "k1" → keywordMatches t edge' = false).
Proof.
  destruct (keyword_is_stored_trimmed "k1" "  " connectedEditor) as (_ & _ & _ & _ & _ & Hb).
  split; [reflexivity|].
  intros edge' t Hin Hid. by destruct (Hb eq_refl edge' t Hin Hid).
Defined.

(** X13.  On every state the user can reach, a run on a question that is
    not blank finds its START node and enters the loop, and it never logs
    [Target node not found. Flow corrupted.]: the graphs built in the
    editor have one START node and no edge to a missing node. *)
Theorem run_on_editor_graph {W : Type}
    (svc : string -> string -> option bool -> W -> TaskResult * W)
    (clock : nat -> Z) (e : Editor W) :
  reachable e →
  truthy (trim (initialQuestion (app (machine e)))) = true →
  fst (handleProcessFlow svc clock (machine e)) = LoopBreak ∧
  Forall (fun x => ¬ isCorruptEntry x)
    (processingLog (app (snd (handleProcessFlow svc clock (machine e))))).
Proof.
  intros Hr Hq. apply reachable_WellFormed in Hr as Hwf.
  assert (targetsExist (nodes (app (machine e))) (edges (app (machine e)))) as Hok.
  { intros x Hin. destruct (wf_target _ _ Hwf x Hin) as (n & Hn & Hid & _). by exists n. }
  unfold handleProcessFlow, traverse. rewrite Hq.
  destruct (find _ (nodes (app (machine e)))) as [startNode|] eqn:Hf.
  - destruct (loop _ _ _ _ _ _ _) as [[ex ls] m1] eqn:Hl. cbn [fst snd].
    apply find_some in Hf as [Hin _]. split.
    + destruct (loop_breaks svc clock (nodes (app (machine e))) (edges (app (machine e)))
                  (length (nodes (app (machine e))) + 10)
                  {| currentNode := startNode;
                     currentInput := initialQuestion (app (machine e));
                     visitedNodes := ∅ |}
                  (resetForRun clock (initialQuestion (app (machine e))) (machine e)))
        as (ls' & m' & Hl' & _).
      * cbn [visitedNodes]. set_solver.
      * exact Hin.
      * cbn [visitedNodes]. rewrite size_empty. lia.
      * congruence.
    + apply (loop_no_corrupt svc clock) in Hl; [exact Hl | exact Hok |].
      repeat constructor. unfold isCorruptEntry. simpl. discriminate.
  - exfalso. pose proof (wf_start _ _ Hwf) as Hs.
    assert (List.filter (isType START) (graphNodes e) = []) as Hnil.
    { clear -Hf. unfold graphNodes. induction (nodes (app (machine e))) as [|a l IH];
        simpl in *; [done|]. unfold isType at 1.
      destruct (bool_decide (n_type a = START)); [done | by apply IH]. }
    rewrite Hnil in Hs. discriminate.
Qed.

(** X13, witness: the fresh flow with START connected to END and a
    question typed. *)
Lemma run_on_editor_graph_witness :
  fst (handleProcessFlow echoService tick
         (machine (onMachine (onApp (setInitialQuestion "hi")) connectedEditor)))
  = LoopBreak.
Proof.
  apply (run_on_editor_graph echoService tick
           (onMachine (onApp (setInitialQuestion "hi")) connectedEditor)).
  - apply (reachable_step connectedEditor); [|apply ui_question].
    apply (reachable_step (handleStartConnection "s" freshEditor)); [|apply ui_nodeClick].
    apply (reachable_step freshEditor); [|apply ui_startConnection].
    apply (reachable_init blankEditor "s" "e"). discriminate.
  - reflexivity.
Defined.

(** X20.  A valid connection.  In connection mode, a click on another node
    of the graph adds the edge when the source is not END, the target is
    not START, and the source is a CONDITIONAL_AGENT or has no outgoing
    edge yet: the edge, with the empty keyword, goes to the end of the
    edge list, the nodes are unchanged, one info entry that names no node
    is appended to the log, connection mode ends and the selection stays.
    A CONDITIONAL_AGENT may so receive any number of outgoing edges. *)
Theorem valid_connection_adds_the_edge {W : Type} (clock : nat -> Z)
    (nodeId newId from : string) (src tgt : AgentNode) (e : Editor W) :
  connectingFromNodeId e = Some from →
  truthy from = true →
  from ≠ nodeId →
  find (fun n => bool_decide (n_id n = from)) (graphNodes e) = Some src →
  find (fun n => bool_decide (n_id n = nodeId)) (graphNodes e) = Some tgt →
  n_type src ≠ END →
  n_type tgt ≠ START →
  n_type src = CONDITIONAL_AGENT
  ∨ (∀ edge, In edge (graphEdges e) → e_sourceId edge ≠ from) →
  let e' := handleNodeClick clock nodeId newId e in
  graphNodes e' = graphNodes e ∧
  graphEdges e' =
    graphEdges e ++
    [ {| e_id := newId; e_sourceId := from; e_targetId := nodeId;
         e_conditionKeyword := Some EmptyString |} ] ∧
  processingLog (app (machine e')) =
    processingLog (app (machine e)) ++
    [ {| timestamp := clock (clockReads (machine e));
         message := "Connected " +:+ substring0 10 (typeName (n_type src)) +:+ "... to " +:+
                    substring0 10 (typeName (n_type tgt)) +:+ "...";
         nodeId := None; status := info; groundingMetadata := None |} ] ∧
  connectingFromNodeId e' = None ∧
  selectedNodeId e' = selectedNodeId e.
Proof.
  intros Hfrom Htr Hne Hs Ht Hsty Htty Hfree. cbv zeta.
  unfold handleNodeClick. rewrite Hfrom, Htr.
  rewrite bool_decide_eq_false_2 by done. cbn [andb negb]. rewrite Hs, Ht.
  rewrite (bool_decide_eq_false_2 (n_type src = END)) by done.
  rewrite (bool_decide_eq_false_2 (n_type tgt = START)) by done. cbn [andb negb].
  assert ((bool_decide (n_type src = START) || bool_decide (n_type src = AGENT))
          && bool_decide (is_Some (find (fun edge => bool_decide (e_sourceId edge = from))
                                     (graphEdges e))) = false) as ->.
  { destruct Hfree as [Hc | Hnone].
    - rewrite Hc. reflexivity.
    - apply andb_false_iff. right. apply bool_decide_eq_false. intros [x Hx].
      apply find_some in Hx as [Hin Hx%bool_decide_eq_true]. by destruct (Hnone x Hin). }
  by split_and!.
Qed.

(** X20, witness: START connected to END in the fresh flow. *)
Lemma valid_connection_witness :
  graphEdges connectedEditor =
    [ {| e_id := "k1"; e_sourceId := "s"; e_targetId := "e";
         e_conditionKeyword := Some EmptyString |} ].
Proof.
  destruct (valid_connection_adds_the_edge tick "e" "k1" "s"
              {| n_id := "s"; n_type := START; n_description := "Workflow Start";
                 n_x := 50; n_y := 940; n_output := Some EmptyString;
                 n_lastProcessedInput := Some EmptyString;
                 n_enableInternetSearch := None; n_groundingMetadata := Some [] |}
              {| n_id := "e"; n_type := END; n_description := "Workflow End";
                 n_x := 2750; n_y := 940; n_output := Some EmptyString;
                 n_lastProcessedInput := Some EmptyString;
                 n_enableInternetSearch := None; n_groundingMetadata := Some [] |}
              (handleStartConnection "s" freshEditor))
    as (_ & He & _).
  - reflexivity.
  - reflexivity.
  - discriminate.
  - vm_compute. reflexivity.
  - vm_compute. reflexivity.
  - discriminate.
  - discriminate.
  - right. intros edge [].
  - exact He.
Defined.

(** ** The service *)

Section ServiceFacts.

Context {I C : Type}.
Variable API_KEY : option string.
Variable newGoogleGenAI : string -> option I.
Variable generateContent :
  I -> geminiService.GenerateContentParameters -> C ->
  (geminiService.GenerateContentResponse + geminiService.Thrown) * C.

Implicit Types s : geminiService.Service I C.

Lemma getAi_client s s' i :
  geminiService.getAi API_KEY newGoogleGenAI s = (inl i, s') →
  geminiService.ai s' = Some i ∧ geminiService.remote s' = geminiService.remote s ∧
  (geminiService.ai s = Some i
   ∨ (geminiService.ai s = None ∧ ∃ apiKey, API_KEY = Some apiKey ∧ truthy apiKey = true ∧
                                            newGoogleGenAI apiKey = Some i)).
Proof.
  unfold geminiService.getAi. intros H.
  destruct (geminiService.ai s) as [i0|] eqn:Hai.
  - simplify_eq. split_and!; [done | done | by left].
  - revert H. destruct (truthyOpt API_KEY) eqn:Hk; [|done].
    destruct (newGoogleGenAI (default EmptyString API_KEY)) as [i1|] eqn:Hnew; [|done].
    intros H. simplify_eq. split_and!; [done | done |]. right. split; [done|].
    destruct API_KEY as [k|]; [|done]. by exists k.
Qed.

Lemma getAi_thrown s s' t :
  geminiService.getAi API_KEY newGoogleGenAI s = (inr t, s') →
  s' = s ∧ geminiService.ai s = None ∧ ∃ msg, t = geminiService.ErrorObject msg.
Proof.
  unfold geminiService.getAi. intros H.
  destruct (geminiService.ai s) as [i0|] eqn:Hai; [done|].
  revert H. destruct (truthyOpt API_KEY).
  - destruct (newGoogleGenAI _); [done|]. intros H. simplify_eq. split_and!; [done | done | by eexists].
  - intros H. simplify_eq. split_and!; [done | done | by eexists].
Qed.

Lemma getAi_missing_key s :
  truthyOpt API_KEY = false → geminiService.ai s = None →
  geminiService.getAi API_KEY newGoogleGenAI s =
    (inr (geminiService.ErrorObject
            "Gemini API Key is not configured. Please set the API_KEY environment variable."),
     s).
Proof. intros Hk Hai. unfold geminiService.getAi. by rewrite Hai, Hk. Qed.

Lemma processAgentTask_missing_key d x b s :
  truthyOpt API_KEY = false → geminiService.ai s = None →
  geminiService.processAgentTask API_KEY newGoogleGenAI generateContent d x b s =
    (Rejected ("Gemini API Error: " +:+
               "Gemini API Key is not configured. Please set the API_KEY environment variable."),
     s).
Proof.
  intros Hk Hai. unfold geminiService.processAgentTask, geminiService.attempt.
  by rewrite getAi_missing_key.
Qed.

End ServiceFacts.

(** ** Runs against a service that rejects every call *)

Section Rejecting.

Context {W : Type}.
Variable svc : string -> string -> option bool -> W -> TaskResult * W.
Variable clock : nat -> Z.
Variable P : W → Prop.
Hypothesis svc_rejects : ∀ d x b w, P w → ∃ msg, svc d x b w = (Rejected msg, w).

Lemma body_rejecting ns es ls (m : Machine W) fl ls' m' :
  P (world m) →
  body svc clock ns es ls m = (fl, ls', m') →
  world m' = world m ∧ currentInput ls' = currentInput ls ∧
  ∃ new, processingLog (app m') = processingLog (app m) ++ new ∧
         Forall (fun e => isNodeOutput e = false) new.
Proof.
  intros HP H.
  destruct (svc_rejects (n_description (currentNode ls)) (currentInput ls)
              (n_enableInternetSearch (currentNode ls)) (world m) HP) as [msg Hs].
  unfold body, navigate in H.
  repeat case_match; simplify_eq/=.
  all: try (rewrite Hs in *; simplify_eq).
  all: split_and!; try done.
  all: first
    [ exists []; split; [by rewrite app_nil_r | constructor]
    | eexists; split; [rewrite <- ?app_assoc; reflexivity|]; by repeat constructor ].
Qed.

Lemma loop_rejecting ns es fuel : ∀ ls (m : Machine W) ex ls' m',
  P (world m) →
  loop svc clock ns es fuel ls m = (ex, ls', m') →
  world m' = world m ∧ currentInput ls' = currentInput ls ∧
  ∃ new, processingLog (app m') = processingLog (app m) ++ new ∧
         Forall (fun e => isNodeOutput e = false) new.
Proof.
  induction fuel as [|fuel IH]; intros ls m ex ls' m' HP Hl; simpl in Hl.
  - simplify_eq. split_and!; [done | done |]. exists []. by rewrite app_nil_r.
  - destruct (body svc clock ns es ls m) as [[fl ls1] m1] eqn:Hb.
    destruct (body_rejecting _ _ _ _ _ _ _ HP Hb) as (Hw & Hi & new1 & Hlog1 & Hn1).
    destruct fl.
    + simplify_eq. split_and!; [done | done |]. by exists new1.
    + rewrite <- Hw in HP.
      destruct (IH _ _ _ _ _ HP Hl) as (Hw' & Hi' & new2 & Hlog2 & Hn2).
      split_and!; [congruence | congruence |].
      exists (new1 ++ new2). split; [by rewrite Hlog2, Hlog1, app_assoc | by apply Forall_app].
Qed.

End Rejecting.

Section ServiceProperties.

Context {I C : Type}.
Variable API_KEY : option string.
Variable newGoogleGenAI : string -> option I.
Variable generateContent :
  I -> geminiService.GenerateContentParameters -> C ->
  (geminiService.GenerateContentResponse + geminiService.Thrown) * C.
Implicit Types s : geminiService.Service I C.

(** X14.  A call of the service resolves only when a client exists or
    could be created from the API key, and the request built from the
    description, the input and the search flag was answered.  The text is
    the text of the response.  The sources are always a list: the chunks
    of the first candidate when search is enabled and the response has
    them, the empty list otherwise, so never [undefined]. *)
Theorem resolved_call_carries_a_source_list d x b s t gm s' :
  geminiService.processAgentTask API_KEY newGoogleGenAI generateContent d x b s
    = (Resolved t gm, s') →
  ∃ i response,
    geminiService.ai s' = Some i ∧
    (geminiService.ai s = Some i
     ∨ (geminiService.ai s = None ∧
        ∃ apiKey, API_KEY = Some apiKey ∧ truthy apiKey = true ∧
                  newGoogleGenAI apiKey = Some i)) ∧
    generateContent i (geminiService.request d x b) (geminiService.remote s)
      = (inl response, geminiService.remote s') ∧
    t = geminiService.responseText response ∧
    gm = Some (default [] (geminiService.sources b response)) ∧
    (b ≠ Some true → gm = Some []).
Proof.
  unfold geminiService.processAgentTask, geminiService.attempt. intros H.
  destruct (geminiService.getAi API_KEY newGoogleGenAI s) as [[i | th] s1] eqn:Hg.
  - apply getAi_client in Hg as (Hai & Hrem & Hfrom). rewrite Hrem in H.
    destruct (generateContent i _ _) as [[response | th] c] eqn:Hc.
    + simplify_eq. exists i, response. split_and!; try done.
      intros Hb. unfold geminiService.sources.
      destruct b as [[]|]; [done | done | done].
    + destruct th; simplify_eq.
  - destruct th; simplify_eq.
Qed.

(** X15.  A call of the service is rejected in one of two ways.  Either no
    client exists and none can be created, because the API key is missing
    or empty or because the constructor throws: then no request is sent,
    the state of the module is unchanged and the message names the cause
    after [Gemini API Error: ].  Or the request was sent with the client
    and it failed: the message is [Gemini API Error: ] followed by the
    message of the error, or the unknown-error message when the value
    thrown is not an [Error]. *)
Theorem rejected_call_message d x b s msg s' :
  geminiService.processAgentTask API_KEY newGoogleGenAI generateContent d x b s
    = (Rejected msg, s') →
  (s' = s ∧ geminiService.ai s = None ∧
   ((truthyOpt API_KEY = false ∧
     msg = "Gemini API Error: Gemini API Key is not configured. Please set the API_KEY environment variable.")
    ∨ (truthyOpt API_KEY = true ∧
       newGoogleGenAI (default EmptyString API_KEY) = None ∧
       msg = "Gemini API Error: Gemini AI service could not be initialized. Check API Key and network.")))
  ∨ (∃ i th, geminiService.ai s' = Some i ∧
             generateContent i (geminiService.request d x b) (geminiService.remote s)
               = (inr th, geminiService.remote s') ∧
             msg = match th with
                   | geminiService.ErrorObject m => "Gemini API Error: " +:+ m
                   | geminiService.OtherValue => "An unknown error occurred with the Gemini API."
                   end).
Proof.
  unfold geminiService.processAgentTask, geminiService.attempt. intros H.
  destruct (geminiService.getAi API_KEY newGoogleGenAI s) as [[i | th] s1] eqn:Hg.
  - right. apply getAi_client in Hg as (Hai & Hrem & _). rewrite Hrem in H.
    destruct (generateContent i _ _) as [[response | th] c] eqn:Hc; [simplify_eq|].
    exists i, th. destruct th; simplify_eq; by split_and!.
  - left. pose proof Hg as (-> & Hai & _)%getAi_thrown.
    unfold geminiService.getAi in Hg. rewrite Hai in Hg.
    destruct (truthyOpt API_KEY) eqn:Hk.
    + destruct (newGoogleGenAI _) eqn:Hnew; simplify_eq.
      split_and!; [done | done |]. right. by split_and!.
    + simplify_eq. split_and!; [done | done |]. left. by split.
Qed.

(** X16.  The client is a singleton.  Once it exists, a call keeps it and
    sends its request with it, whatever the API key and the constructor
    have become: the key is read and the constructor is run only while
    there is no client. *)
Theorem existing_client_is_reused (API_KEY' : option string)
    (newGoogleGenAI' : string -> option I) d x b s i :
  geminiService.ai s = Some i →
  geminiService.processAgentTask API_KEY newGoogleGenAI generateContent d x b s
    = geminiService.processAgentTask API_KEY' newGoogleGenAI' generateContent d x b s ∧
  geminiService.ai
    (snd (geminiService.processAgentTask API_KEY newGoogleGenAI generateContent d x b s))
    = Some i.
Proof.
  intros Hai. unfold geminiService.processAgentTask, geminiService.attempt,
    geminiService.getAi. rewrite Hai. split; [reflexivity|].
  destruct (generateContent i _ _) as [[response | [m|]] c]; exact Hai.
Qed.

(** X17.  A run without API key.  When the key is missing or empty and no
    client exists, a run on a question that is not blank sends no request
    and creates no client: the state of the service is as before.  No
    agent produces an output, and a final output, if the run reaches END,
    is the question itself. *)
Theorem run_without_api_key (clock : nat -> Z)
    (m : Machine (geminiService.Service I C)) :
  truthyOpt API_KEY = false →
  geminiService.ai (world m) = None →
  truthy (trim (initialQuestion (app m))) = true →
  let r := handleProcessFlow
             (geminiService.processAgentTask API_KEY newGoogleGenAI generateContent)
             clock m in
  world (snd r) = world m ∧
  Forall (fun e => isNodeOutput e = false) (processingLog (app (snd r))) ∧
  (∀ p, finalOutput (app (snd r)) = Some p → p = initialQuestion (app m)).
Proof.
  intros Hk Hai Hq. cbv zeta. unfold handleProcessFlow, traverse. rewrite Hq.
  rewrite resetForRun_eq.
  destruct (find _ (nodes (app m))) as [startNode|].
  - destruct (loop _ _ _ _ _ _ _) as [[ex ls] m1] eqn:Hl. cbn [snd].
    pose proof Hl as Hfin. apply loop_finalOutput in Hfin; [|reflexivity].
    eapply (loop_rejecting _ clock (fun w => geminiService.ai w = None)) in Hl.
    + destruct Hl as (Hw & Hi & new & Hlog & Hnew).
      split_and!.
      * exact Hw.
      * change (processingLog (app (finishRun m1))) with (processingLog (app m1)).
        rewrite Hlog. apply Forall_app. split; [|exact Hnew]. by repeat constructor.
      * change (finalOutput (app (finishRun m1))) with (finalOutput (app m1)).
        intros p Hp. destruct Hfin as [[Hnone _] | (_ & _ & Hsome & _)]; [congruence|].
        rewrite Hsome in Hp. simplify_eq. exact Hi.
    + intros d x b w Hw. eexists. by apply processAgentTask_missing_key.
    + exact Hai.
  - cbn [snd]. split_and!; [done | by repeat constructor | done].
Qed.

End ServiceProperties.

(** X14, witness: a call with search enabled, answered by the stub. *)
Lemma resolved_call_witness :
  ∃ t l,
    fst (geminiService.processAgentTask (Some "key") (fun _ => Some tt) stubClient
           "Summarise" "hello" (Some true) coldService) = Resolved t (Some l).
Proof.
  destruct (resolved_call_carries_a_source_list (Some "key") (fun _ => Some tt) stubClient
              "Summarise" "hello" (Some true) coldService
              ("Input to process: " +:+ dq +:+ "hello" +:+ dq)
              (Some [ {| web := Some {| uri := "https://example.org"; title := "Example" |} |} ])
              {| geminiService.ai := Some tt; geminiService.remote := 1 |})
    as (i & response & _ & _ & _ & _ & Hgm & _).
  - vm_compute. reflexivity.
  - do 2 eexists. vm_compute. reflexivity.
Defined.

(** X15, witness: a call without API key. *)
Lemma rejected_call_message_witness :
  snd (geminiService.processAgentTask None (fun _ => Some tt) stubClient
         "Summarise" "hello" None coldService) = coldService.
Proof.
  destruct (rejected_call_message None (fun _ => Some tt) stubClient
              "Summarise" "hello" None coldService
              "Gemini API Error: Gemini API Key is not configured. Please set the API_KEY environment variable."
              coldService)
    as [(Hs & _) | (i & th & Hai & _)].
  - vm_compute. reflexivity.
  - reflexivity.
  - discriminate Hai.
Defined.

(** X16, witness: a warm service whose key has been removed. *)
Lemma existing_client_witness :
  geminiService.ai
    (snd (geminiService.processAgentTask None (fun _ => None) stubClient
            "Summarise" "hello" None
            {| geminiService.ai := Some tt; geminiService.remote := 0 |}))
  = Some tt.
Proof.
  apply (existing_client_is_reused None (fun _ => None) stubClient
           (Some "key") (fun _ => Some tt) "Summarise" "hello" None
           {| geminiService.ai := Some tt; geminiService.remote := 0 |} tt).
  reflexivity.
Defined.

(** X17, witness: the happy path without API key. *)
Lemma run_without_api_key_witness :
  world (snd (handleProcessFlow
                (geminiService.processAgentTask None (fun _ => Some tt) stubClient)
                tick coldRun))
  = coldService.
Proof.
  destruct (run_without_api_key None (fun _ => Some tt) stubClient tick coldRun)
    as (Hw & _ & _).
  - reflexivity.
  - reflexivity.
  - reflexivity.
  - exact Hw.
Defined.

(** ** The log panel *)

Lemma filter_sublist {A} (f : A → bool) (l : list A) : sublist (List.filter f l) l.
Proof.
  induction l as [|a l IH]; simpl; [constructor|].
  destruct (f a); by constructor.
Qed.

Lemma run_log_head {W : Type}
    (svc : string -> string -> option bool -> W -> TaskResult * W)
    (clock : nat -> Z) (m : Machine W) :
  truthy (trim (initialQuestion (app m))) = true →
  ∃ rest,
    processingLog (app (snd (handleProcessFlow svc clock m))) =
      {| timestamp := clock (clockReads m);
         message := "Starting flow with question: " +:+ dq +:+ initialQuestion (app m) +:+ dq;
         nodeId := None; status := info; groundingMetadata := None |} :: rest.
Proof.
  intros Hq. unfold handleProcessFlow, traverse. rewrite Hq, resetForRun_eq.
  destruct (find _ (nodes (app m))) as [startNode|].
  - destruct (loop _ _ _ _ _ _ _) as [[ex ls] m1] eqn:Hl. cbn [snd].
    apply loop_log in Hl as (new & Hlog & _).
    change (processingLog (app (finishRun m1))) with (processingLog (app m1)).
    rewrite Hlog. by eexists.
  - cbn [snd]. by eexists.
Qed.

(** X18.  The log panel.  Without a selected node every entry is shown.
    With one, the panel shows, in their order, the entries that name the
    selected node and the entries that name no node, and nothing else: no
    entry of another node is shown. *)
Theorem log_panel_shows_selected_and_general_entries
    (logs : list ProcessLogEntry) (selected : option string) :
  (truthyOpt selected = false → displayedLogs logs selected = logs) ∧
  sublist (displayedLogs logs selected) logs ∧
  (truthyOpt selected = true →
   ∀ x, In x (displayedLogs logs selected) ↔
        In x logs ∧ (nodeId x = selected ∨ truthyOpt (nodeId x) = false)).
Proof.
  unfold displayedLogs. split_and!.
  - by intros ->.
  - destruct (truthyOpt selected); [apply filter_sublist | reflexivity].
  - intros ->. intros x.
    rewrite filter_In, orb_true_iff, bool_decide_eq_true, negb_true_iff. done.
Qed.

(** X19.  Whatever node is selected, the log panel shows the entry that
    opens a run first: after a run on a question that is not blank, the
    first entry shown is the start entry with the question. *)
Theorem log_panel_opens_with_the_question {W : Type}
    (svc : string -> string -> option bool -> W -> TaskResult * W)
    (clock : nat -> Z) (m : Machine W) (selected : option string) :
  truthy (trim (initialQuestion (app m))) = true →
  head (displayedLogs (processingLog (app (snd (handleProcessFlow svc clock m)))) selected) =
    Some {| timestamp := clock (clockReads m);
            message := "Starting flow with question: " +:+ dq +:+ initialQuestion (app m)
                       +:+ dq;
            nodeId := None; status := info; groundingMetadata := None |}.
Proof.
  intros Hq. destruct (run_log_head svc clock m Hq) as [rest ->].
  unfold displayedLogs. destruct (truthyOpt selected); [|reflexivity].
  cbn [List.filter nodeId truthyOpt negb]. rewrite orb_true_r. reflexivity.
Qed.

(** X19, witness: the happy path with the agent selected. *)
Lemma log_panel_witness :
  head (displayedLogs
          (processingLog (app (snd (handleProcessFlow echoService tick (boot happyPath)))))
          (Some "a")) =
    Some {| timestamp := 0%Z;
            message := "Starting flow with question: " +:+ dq +:+ "hello" +:+ dq;
            nodeId := None; status := info; groundingMetadata := None |}.
Proof.
  apply (log_panel_opens_with_the_question echoService tick (boot happyPath) (Some "a")).
  reflexivity.
Defined.
